(** * mc: the S3 object operations and the [pipe] command

    A shallow embedding of two Go source files of the Minio client:
    - the [s3] package's object API ([Put], [StatObject], [Get],
      [GetPartial]) with its [blockingWriteCloser];
    - the [pipe] function of [pipe-main.go].

    Go strings are byte sequences, modelled as [string] (a list of 8-bit
    [ascii]); [int64] is [Z] with the wrap-around written out; a [nil]
    error is [None]. *)

From Stdlib Require Import ZArith NArith String Ascii List Lia Bool DecimalString.
From stdpp Require Import gmap strings.
Import ListNotations.
Open Scope Z_scope.

(** ** The parts of the Go standard library the sources call *)

Module Go.

(** Go errors that the modelled code creates or inspects. [Iodine e] is the
    stack-carrying wrapper built by [iodine.New]; [Errno] is
    [syscall.Errno]; [PathError] is [*os.PathError]. *)
Inductive numErr := ErrSyntax | ErrRange.

Inductive error :=
| ErrLength                                   (* encoding/hex *)
| InvalidByteError (b : ascii)                (* encoding/hex *)
| NumError (Func Num : string) (Err : numErr) (* strconv *)
| errorString (s : string)                    (* errors.New *)
| Errno (n : Z)                               (* syscall *)
| PathError (Op Path : string) (Err : error)  (* os *)
| InvalidArgument                             (* client.InvalidArgument{} *)
| ObjectNotFound (Bucket Object : string)     (* client.ObjectNotFound{} *)
| InvalidRange (Offset : Z)                   (* client.InvalidRange{} *)
| EOF                                         (* io *)
| ErrClosedPipe                               (* io *)
| Iodine (e : error).                         (* iodine.Error *)

#[global] Instance numErr_eq_dec : EqDecision numErr.
Proof. solve_decision. Defined.

#[global] Instance error_eq_dec : EqDecision error.
Proof. solve_decision. Defined.

(** [iodine.New(err, nil)]: a nil error stays nil, any other error is
    wrapped with a stack entry. *)
Definition iodine_New (err : option error) : option error :=
  match err with
  | None => None
  | Some e => Some (Iodine e)
  end.

(** *** int64 *)

Definition MinInt64 : Z := - 2 ^ 63.
Definition MaxInt64 : Z := 2 ^ 63 - 1.

Definition isInt64 (z : Z) : Prop := MinInt64 <= z <= MaxInt64.

(** Two's complement wrap-around of an integer into int64. *)
Definition wrap64 (z : Z) : Z := (z + 2 ^ 63) mod 2 ^ 64 - 2 ^ 63.

Definition add64 (a b : Z) : Z := wrap64 (a + b).
Definition sub64 (a b : Z) : Z := wrap64 (a - b).

(** *** fmt: the verb [%d] on an int64 *)

Definition fmt_d (z : Z) : string := NilZero.string_of_int (Z.to_int z).

(** *** strings *)

Definition byteIs (n : N) (a : ascii) : bool := N.eqb (N_of_ascii a) n.

Definition byteIn (lo hi : N) (a : ascii) : bool :=
  N.leb lo (N_of_ascii a) && N.leb (N_of_ascii a) hi.

(** [unicode.IsSpace] on the code points below 0x80: tab, line feed,
    vertical tab, form feed, carriage return, space. *)
Definition isSpace1 (a : ascii) : bool := byteIn 9 13 a || byteIs 32 a.

(** The two-byte UTF-8 sequences of white space: U+0085 and U+00A0. *)
Definition isSpace2 (a b : ascii) : bool :=
  byteIs 194 a && (byteIs 133 b || byteIs 160 b).

(** The three-byte UTF-8 sequences of white space: U+1680, U+2000 to U+200A,
    U+2028, U+2029, U+202F, U+205F and U+3000. *)
Definition isSpace3 (a b c : ascii) : bool :=
  (byteIs 225 a && byteIs 154 b && byteIs 128 c)
  || (byteIs 226 a && byteIs 128 b
      && (byteIn 128 138 c || byteIs 168 c || byteIs 169 c || byteIs 175 c))
  || (byteIs 226 a && byteIs 129 b && byteIs 159 c)
  || (byteIs 227 a && byteIs 128 b && byteIs 128 c).

(** [strings.TrimLeftFunc(s, unicode.IsSpace)]: runes are decoded from the
    front; a rune is white space exactly when the bytes at that position are
    the UTF-8 encoding of a white space code point. *)
Fixpoint TrimLeftSpace (s : string) : string :=
  match s with
  | EmptyString => s
  | String a s1 =>
    if isSpace1 a then TrimLeftSpace s1 else
    match s1 with
    | String b s2 =>
      if isSpace2 a b then TrimLeftSpace s2 else
      match s2 with
      | String c s3 => if isSpace3 a b c then TrimLeftSpace s3 else s
      | EmptyString => s
      end
    | EmptyString => s
    end
  end.

(** The same from the back, on the reversed byte sequence. *)
Fixpoint trimLeftSpaceRev (s : string) : string :=
  match s with
  | EmptyString => s
  | String c s1 =>
    if isSpace1 c then trimLeftSpaceRev s1 else
    match s1 with
    | String b s2 =>
      if isSpace2 b c then trimLeftSpaceRev s2 else
      match s2 with
      | String a s3 => if isSpace3 a b c then trimLeftSpaceRev s3 else s
      | EmptyString => s
      end
    | EmptyString => s
    end
  end.

Definition rev_string (s : string) : string :=
  string_of_list_ascii (List.rev (list_ascii_of_string s)).

Definition TrimRightSpace (s : string) : string :=
  rev_string (trimLeftSpaceRev (rev_string s)).

(** [strings.TrimSpace]. *)
Definition TrimSpace (s : string) : string := TrimRightSpace (TrimLeftSpace s).

Definition inCutset (cutset : string) (a : ascii) : bool :=
  existsb (Ascii.eqb a) (list_ascii_of_string cutset).

Fixpoint trimLeftBytes (cutset s : string) : string :=
  match s with
  | EmptyString => s
  | String a s1 => if inCutset cutset a then trimLeftBytes cutset s1 else s
  end.

(** [strings.Trim(s, cutset)] for a cutset of ASCII characters: a rune
    equals an ASCII character exactly when the byte at its position does. *)
Definition Trim (s cutset : string) : string :=
  rev_string (trimLeftBytes cutset (rev_string (trimLeftBytes cutset s))).

(** A byte that is ASCII and not white space. *)
Definition plain (a : ascii) : Prop :=
  (N_of_ascii a < 128)%N /\ isSpace1 a = false.

(** A string in which no byte belongs to the cutset. *)
Definition avoids (cutset s : string) : Prop :=
  Forall (fun a => inCutset cutset a = false) (list_ascii_of_string s).

(** *** encoding/hex *)

Definition fromHexChar (a : ascii) : option N :=
  let n := N_of_ascii a in
  if byteIn 48 57 a then Some (n - 48)%N
  else if byteIn 97 102 a then Some (n - 97 + 10)%N
  else if byteIn 65 70 a then Some (n - 65 + 10)%N
  else None.

(** The loop of [hex.Decode]: two characters give one byte,
    [(a << 4) | b]; a bad character is reported where the loop meets it, and
    a last character left alone is [ErrLength] unless it is bad itself. *)
Fixpoint hexPairs (s : string) : list Byte.byte + error :=
  match s with
  | EmptyString => inl []
  | String x EmptyString =>
    match fromHexChar x with
    | None => inr (InvalidByteError x)
    | Some _ => inr ErrLength
    end
  | String x (String y s') =>
    match fromHexChar x with
    | None => inr (InvalidByteError x)
    | Some a =>
      match fromHexChar y with
      | None => inr (InvalidByteError y)
      | Some b =>
        match hexPairs s' with
        | inr e => inr e
        | inl bs =>
          inl (byte_of_ascii (ascii_of_N (N.lor (N.shiftl a 4) b)) :: bs)
        end
      end
    end
  end.

(** [hex.DecodeString]: the bytes, or the first error of the loop. *)
Definition DecodeString (s : string) : list Byte.byte + error := hexPairs s.

(** *** encoding/base64: [StdEncoding.EncodeToString] *)

Definition encodeStd : string :=
  "ABCDEFGHIJKLMNOPQRSTUVWXYZabcdefghijklmnopqrstuvwxyz0123456789+/".

Definition encodeStdAt (n : N) : ascii :=
  match String.get (N.to_nat n) encodeStd with
  | Some a => a
  | None => "="%char
  end.

Definition sextet (v : N) (shift : N) : ascii :=
  encodeStdAt (N.land (N.shiftr v shift) 63).

Fixpoint EncodeToString (src : list Byte.byte) : string :=
  match src with
  | [] => EmptyString
  | [b0] =>
    let v := N.shiftl (Byte.to_N b0) 16 in
    String (sextet v 18) (String (sextet v 12) (String "=" (String "=" EmptyString)))
  | [b0; b1] =>
    let v := N.lor (N.shiftl (Byte.to_N b0) 16) (N.shiftl (Byte.to_N b1) 8) in
    String (sextet v 18) (String (sextet v 12) (String (sextet v 6) (String "=" EmptyString)))
  | b0 :: b1 :: b2 :: rest =>
    let v := N.lor (N.lor (N.shiftl (Byte.to_N b0) 16) (N.shiftl (Byte.to_N b1) 8))
                   (Byte.to_N b2) in
    String (sextet v 18) (String (sextet v 12) (String (sextet v 6) (String (sextet v 0)
      (EncodeToString rest))))
  end.

(** *** strconv: [ParseInt(s, 10, 64)] *)

Definition MaxUint64 : Z := 2 ^ 64 - 1.

Definition digitValue (a : ascii) : option Z :=
  let n := Z.of_N (N_of_ascii a) in
  if byteIn 48 57 a then Some (n - 48)
  else if byteIn 97 122 a then Some (n - 97 + 10)
  else if byteIn 65 90 a then Some (n - 65 + 10)
  else None.

(** The digit loop of [ParseUint] in base 10 with 64 bits. *)
Fixpoint parseUintLoop (s : string) (n : Z) : Z + numErr :=
  match s with
  | EmptyString => inl n
  | String d s' =>
    match digitValue d with
    | None => inr ErrSyntax
    | Some v =>
      if 10 <=? v then inr ErrSyntax
      else if MaxUint64 / 10 + 1 <=? n then inr ErrRange
      else
        let n1 := n * 10 + v in
        if MaxUint64 <? n1 then inr ErrRange else parseUintLoop s' n1
    end
  end.

Definition ParseUint (s : string) : Z + numErr :=
  match s with
  | EmptyString => inr ErrSyntax
  | _ => parseUintLoop s 0
  end.

Definition ParseInt (s : string) : Z + error :=
  match s with
  | EmptyString => inr (NumError "ParseInt" s ErrSyntax)
  | String a s' =>
    let neg := byteIs 45 a in
    let digits := if byteIs 43 a || neg then s' else s in
    match ParseUint digits with
    | inr ErrSyntax => inr (NumError "ParseInt" s ErrSyntax)
    | inr ErrRange => inr (NumError "ParseInt" s ErrRange)
    | inl un =>
      let cutoff := 2 ^ 63 in
      if negb neg && (cutoff <=? un) then inr (NumError "ParseInt" s ErrRange)
      else if neg && (cutoff <? un) then inr (NumError "ParseInt" s ErrRange)
      else inl (if neg then - un else un)
    end
  end.

End Go.

(** ** Package s3: the object API *)

Module S3.
Import Go.

(** [http.Header]: a map from header names to their values. [net/http]
    brings names to one canonical spelling on both [Set] and [Get], so the
    model indexes the map by the name as the source spells it. *)
Abbreviation Header := (gmap string (list string)).

Definition Header_Set (h : Header) (key value : string) : Header :=
  <[key := [value]]> h.

Definition Header_Get (h : Header) (key : string) : string :=
  match h !! key with
  | Some (v :: _) => v
  | _ => EmptyString
  end.

(** The read end [r] of the pipe made by [io.Pipe()]. *)
Inductive reader := PipeReader.

Module Request.

Record t := mk {
  Method : string;
  URL : string;
  Header : gmap string (list string);
  ContentLength : Z;
  Body : option reader
}.

Definition setMethod (req : t) (m : string) : t :=
  mk m (URL req) (Header req) (ContentLength req) (Body req).

Definition setContentLength (req : t) (n : Z) : t :=
  mk (Method req) (URL req) (Header req) n (Body req).

(** [req.Header.Set(key, value)] *)
Definition setHeader (req : t) (key value : string) : t :=
  mk (Method req) (URL req) (Header_Set (Header req) key value)
     (ContentLength req) (Body req).

Definition hasBody (req : t) : bool :=
  match Body req with
  | Some _ => true
  | None => false
  end.

(** The length that the request declares, as [net/http] reads the field of
    an outgoing request: a negative [ContentLength] is a length that is not
    known, and so is 0 when the request has a body; then the request goes
    out chunked, with no Content-Length. Any other value is sent as the
    Content-Length. *)
Definition declaredLength (req : t) : option Z :=
  if ContentLength req <? 0 then None
  else if (ContentLength req =? 0) && hasBody req then None
  else Some (ContentLength req).

End Request.

Module Response.

Record t := mk {
  StatusCode : Z;
  Header : gmap string (list string);
  ContentLength : Z;
  Body : list Byte.byte
}.

End Response.

Definition StatusOK : Z := 200.
Definition StatusPartialContent : Z := 206.
Definition StatusNotFound : Z := 404.

(** [time.Time]; the zero value has every field zero. *)
Record Time := mkTime { sec : Z; nsec : Z }.
Definition zeroTime : Time := mkTime 0 0.

Definition RFC1123 : string := "Mon, 02 Jan 2006 15:04:05 MST".

Record s3Client := {
  Host : string;
  UserAgent : string;
  Transport : Request.t -> Response.t + error   (* c.Transport.RoundTrip *)
}.

(** The functions of the package that the object API calls and that live in
    its other files, with the two library calls whose result is decided
    outside the program: [time.Parse] and the [Do] of a fresh
    [http.Client]. *)
Class Deps := {
  keyURL : s3Client -> string -> string -> string;
  newReq : string -> string -> option reader -> Request.t;
  signRequest : s3Client -> Request.t -> string -> Request.t;
  NewError : Response.t -> error;
  time_Parse : string -> string -> Time + error;
  client_Do : Request.t -> Response.t + error
}.

(** *** The pipe and the blockingWriteCloser *)

(** [io.pipe]: [rerr] is set once the read end is closed, [werr] once the
    write end is. *)
Record pipe := { rerr : option error; werr : option error }.

Definition Pipe : pipe := {| rerr := None; werr := None |}.

(** Each end keeps the error of its first close; closing it again changes
    nothing. *)
Definition rclose (p : pipe) (err : option error) : pipe :=
  {| rerr := match rerr p with
             | Some first => Some first
             | None => Some (match err with None => ErrClosedPipe | Some e => e end)
             end;
     werr := werr p |}.

Definition wclose (p : pipe) (err : option error) : pipe :=
  {| rerr := rerr p;
     werr := match werr p with
             | Some first => Some first
             | None => Some (match err with None => EOF | Some e => e end)
             end |}.

(** The [Close] of a [PipeWriter]: closes the write end, the error is always
    nil. *)
Definition PipeWriter_Close (p : pipe) : pipe * option error :=
  (wclose p None, None).

(** [release] is the counter of the [sync.WaitGroup]. *)
Record blockingWriteCloser := {
  w : pipe;
  release : Z;
  err : option error
}.

Definition NewBlockingWriteCloser (p : pipe) : blockingWriteCloser :=
  {| w := p; release := 0 + 1; err := None |}.

(** The statements of the function that [Put] starts with [go], in the
    order in which one run of it executes them. *)
Inductive stmt :=
| ClientDo (req : Request.t)              (* client.Do(req) *)
| CloseWithError (e : option error)       (* r.CloseWithError(err) *)
| ReaderClose                             (* r.Close() *)
| Release (e : option error).             (* blockingWriter.Release(err) *)

Section Operations.
Context {D : Deps}.

(** The request of [Put] up to the call of [signRequest], or the error of
    the hex decoding. *)
Definition Put_request (c : s3Client) (bucket key md5HexString : string)
    (size : Z) : Request.t + error :=
  let req := newReq (keyURL c bucket key) (UserAgent c) (Some PipeReader) in
  let req := Request.setMethod req "PUT" in
  let req := Request.setContentLength req size in
  if negb (String.eqb (TrimSpace md5HexString) EmptyString) then
    match DecodeString md5HexString with
    | inr e => inr e
    | inl md5 => inl (Request.setHeader req "Content-MD5" (EncodeToString md5))
    end
  else inl req.

Definition Put_background (c : s3Client) (bucket key md5HexString : string)
    (size : Z) : list stmt :=
  match Put_request c bucket key md5HexString size with
  | inr e =>
    let e := iodine_New (Some e) in
    [CloseWithError e; Release e]
  | inl req =>
    let req := signRequest c req (Host c) in
    match client_Do req with
    | inr e =>
      let e := iodine_New (Some e) in
      [ClientDo req; CloseWithError e; Release e]
    | inl res =>
      if negb (Response.StatusCode res =? StatusOK) then
        (* the [err] of [client.Do] is nil on this path *)
        let e := iodine_New None in
        [ClientDo req; CloseWithError e; Release e]
      else [ClientDo req; Release None; ReaderClose]
    end
  end.

(** [Put]: the handle, the nil error, and the statements of the function
    that runs in the background. *)
Definition Put (c : s3Client) (bucket key md5HexString : string) (size : Z)
    : (blockingWriteCloser * option error) * list stmt :=
  let blockingWriter := NewBlockingWriteCloser Pipe in
  ((blockingWriter, None), Put_background c bucket key md5HexString size).

(** Every operation below returns its Go results and the requests it handed
    to the transport. *)

Definition StatObject (c : s3Client) (bucket key : string)
    : (Z * Time * option error) * list Request.t :=
  let date := zeroTime in
  if String.eqb bucket EmptyString || String.eqb key EmptyString then
    ((0, date, iodine_New (Some InvalidArgument)), [])
  else
    let req := newReq (keyURL c bucket key) (UserAgent c) None in
    let req := Request.setMethod req "HEAD" in
    let req := signRequest c req (Host c) in
    match Transport c req with
    | inr e => ((0, date, iodine_New (Some e)), [req])
    | inl res =>
      if Response.StatusCode res =? StatusNotFound then
        ((0, date, iodine_New (Some (ObjectNotFound bucket key))), [req])
      else if Response.StatusCode res =? StatusOK then
        match ParseInt (Header_Get (Response.Header res) "Content-Length") with
        | inr e => ((0, date, iodine_New (Some e)), [req])
        | inl size =>
          let dateStr := Header_Get (Response.Header res) "Last-Modified" in
          if negb (String.eqb dateStr EmptyString) then
            match time_Parse RFC1123 dateStr with
            | inr e => ((0, zeroTime, iodine_New (Some e)), [req])
            | inl date => ((size, date, None), [req])
            end
          else ((size, date, None), [req])
        end
      else ((0, date, iodine_New (Some (NewError res))), [req])
    end.

Definition quote : string := String "034" EmptyString.

Definition Get (c : s3Client) (bucket key : string)
    : (option (list Byte.byte) * Z * string * option error) * list Request.t :=
  let req := newReq (keyURL c bucket key) (UserAgent c) None in
  let req := signRequest c req (Host c) in
  match Transport c req with
  | inr e => ((None, 0, EmptyString, iodine_New (Some e)), [req])
  | inl res =>
    if negb (Response.StatusCode res =? StatusOK) then
      ((None, 0, EmptyString, iodine_New (Some (NewError res))), [req])
    else
      let md5sum := Trim (Header_Get (Response.Header res) "ETag") quote in
      ((Some (Response.Body res), Response.ContentLength res, md5sum, None), [req])
  end.

Definition GetPartial (c : s3Client) (bucket key : string) (offset length : Z)
    : (option (list Byte.byte) * Z * string * option error) * list Request.t :=
  if offset <? 0 then
    ((None, 0, EmptyString, iodine_New (Some (InvalidRange offset))), [])
  else
    let req := newReq (keyURL c bucket key) (UserAgent c) None in
    let req :=
      if 0 <=? length then
        Request.setHeader req "Range"
          ("bytes=" +:+ fmt_d offset +:+ "-" +:+ fmt_d (sub64 (add64 offset length) 1))
      else
        Request.setHeader req "Range" ("bytes=" +:+ fmt_d offset +:+ "-") in
    let req := signRequest c req (Host c) in
    match Transport c req with
    | inr e => ((None, 0, EmptyString, iodine_New (Some e)), [req])
    | inl res =>
      if (Response.StatusCode res =? StatusOK)
         || (Response.StatusCode res =? StatusPartialContent) then
        ((Some (Response.Body res), Response.ContentLength res,
          Header_Get (Response.Header res) "ETag", None), [req])
      else ((None, 0, EmptyString, iodine_New (Some (NewError res))), [req])
    end.

(** The request that each operation hands to the transport. *)

Definition StatObject_req (c : s3Client) (bucket key : string) : Request.t :=
  signRequest c
    (Request.setMethod (newReq (keyURL c bucket key) (UserAgent c) None) "HEAD")
    (Host c).

Definition Get_req (c : s3Client) (bucket key : string) : Request.t :=
  signRequest c (newReq (keyURL c bucket key) (UserAgent c) None) (Host c).

Definition GetPartial_req (c : s3Client) (bucket key : string)
    (range : string) : Request.t :=
  signRequest c
    (Request.setHeader (newReq (keyURL c bucket key) (UserAgent c) None)
       "Range" range)
    (Host c).

(** What the proofs ask of [signRequest]: it leaves the content length, or
    the header [name], as [Put] and [GetPartial] set them. *)
Definition signRequest_keeps_length : Prop :=
  forall c req host,
    Request.ContentLength (signRequest c req host) = Request.ContentLength req.

Definition signRequest_keeps (name : string) : Prop :=
  forall c req host,
    Header_Get (Request.Header (signRequest c req host)) name
    = Header_Get (Request.Header req) name.

(** And of the body: [newReq] puts the body it is given into the request,
    [signRequest] leaves it there. *)
Definition newReq_keeps_body : Prop :=
  forall url userAgent body, Request.Body (newReq url userAgent body) = body.

Definition signRequest_keeps_body : Prop :=
  forall c req host, Request.Body (signRequest c req host) = Request.Body req.

End Operations.

(** *** Close and Release, one atomic step at a time

    [Close] and the function started by [Put] run in two goroutines that
    share the [blockingWriteCloser] and the pipe. Each method is cut into
    its atomic steps, and an execution is an interleaving of the steps of
    the two goroutines.

    When [client.Do] returns is the server's doing: one that answers, or a
    connection that fails, before the body is read lets it return at any
    moment; one that reads the body first lets it return only after the
    caller has closed the write end. The step [HttpDo] may be taken at any
    moment, so the runs of every such server are among the interleavings;
    what is proved of every interleaving holds of each of them, and a
    statement that names one schedule is about that schedule. *)

Inductive action :=
| WriterClose                       (* err := b.w.Close(); if err != nil { b.err = err } *)
| WaitGroupWait                     (* b.release.Wait() *)
| ReturnErr                         (* return b.err *)
| WaitGroupDone                     (* b.release.Done() *)
| StoreErr (e : option error)       (* if err != nil { b.err = err } *)
| ReaderCloseWith (e : option error) (* r.CloseWithError(err), r.Close() *)
| HttpDo (req : Request.t).         (* client.Do(req) returns *)

(** [func (b *blockingWriteCloser) Close() error] *)
Definition Close : list action := [WriterClose; WaitGroupWait; ReturnErr].

(** [func (b *blockingWriteCloser) Release(err error)] *)
Definition Release_steps (e : option error) : list action :=
  [WaitGroupDone; StoreErr e].

Definition steps_of (s : stmt) : list action :=
  match s with
  | ClientDo req => [HttpDo req]
  | CloseWithError e => [ReaderCloseWith e]
  | ReaderClose => [ReaderCloseWith None]
  | Release e => Release_steps e
  end.

(** What the two goroutines share: the handle (with the pipe in it) and the
    requests that reached the HTTP client. *)
Record store := { b : blockingWriteCloser; sent : list Request.t }.

Inductive outcome :=
| Next (s : store)
| Blocked
| Panic
| Result (v : option error).

Definition exec (a : action) (s : store) : outcome :=
  let bw := b s in
  match a with
  | WriterClose =>
    let '(p, e) := PipeWriter_Close (w bw) in
    Next {| b := {| w := p; release := release bw;
                    err := match e with Some _ => e | None => err bw end |};
            sent := sent s |}
  | WaitGroupWait => if release bw =? 0 then Next s else Blocked
  | ReturnErr => Result (err bw)
  | WaitGroupDone =>
    if release bw - 1 <? 0 then Panic
    else Next {| b := {| w := w bw; release := release bw - 1; err := err bw |};
                 sent := sent s |}
  | StoreErr e =>
    match e with
    | Some _ => Next {| b := {| w := w bw; release := release bw; err := e |};
                        sent := sent s |}
    | None => Next s
    end
  | ReaderCloseWith e =>
    Next {| b := {| w := rclose (w bw) e; release := release bw; err := err bw |};
            sent := sent s |}
  | HttpDo req =>
    (* by the time [Do] returns, [net/http] has closed the body of the
       request, which is the read end of the pipe *)
    Next {| b := {| w := rclose (w bw) None; release := release bw; err := err bw |};
            sent := sent s ++ [req] |}
  end.

Inductive goroutine := Caller | Sender.

(** [caller] and [sender] are the steps each goroutine still has to run,
    [returned] the values the caller's [Close] calls have returned. *)
Record config := {
  shared : store;
  caller : list action;
  sender : list action;
  returned : list (option error);
  panicked : bool
}.

Definition step (g : goroutine) (cfg : config) : option config :=
  if panicked cfg then None else
  let todo := match g with Caller => caller cfg | Sender => sender cfg end in
  match todo with
  | [] => None
  | a :: rest =>
    let caller' := match g with Caller => rest | Sender => caller cfg end in
    let sender' := match g with Caller => sender cfg | Sender => rest end in
    match exec a (shared cfg) with
    | Blocked => None
    | Next s => Some {| shared := s; caller := caller'; sender := sender';
                        returned := returned cfg; panicked := false |}
    | Result v => Some {| shared := shared cfg; caller := caller'; sender := sender';
                          returned := returned cfg ++ [v]; panicked := false |}
    | Panic => Some {| shared := shared cfg; caller := caller'; sender := sender';
                       returned := returned cfg; panicked := true |}
    end
  end.

(** One execution: the schedule names the goroutine that takes each step;
    [None] when the schedule asks for a step that cannot be taken. *)
Fixpoint run (schedule : list goroutine) (cfg : config) : option config :=
  match schedule with
  | [] => Some cfg
  | g :: schedule' =>
    match step g cfg with
    | None => None
    | Some cfg' => run schedule' cfg'
    end
  end.

(** The caller runs [prog] on the handle that [Put] returned while the
    function that [Put] started runs in the background. *)
Definition spawn (p : blockingWriteCloser * option error * list stmt)
    (prog : list action) : config :=
  {| shared := {| b := fst (fst p); sent := [] |};
     caller := prog;
     sender := flat_map steps_of (snd p);
     returned := [];
     panicked := false |}.

(** The schedule in which the function in the background has finished
    before the caller takes its first step. *)
Definition sender_first (cfg : config) : list goroutine :=
  repeat Sender (List.length (sender cfg)) ++ repeat Caller (List.length (caller cfg)).

Definition isRelease (s : stmt) : bool :=
  match s with Release _ => true | _ => false end.

Definition isCloseStep (a : action) : bool :=
  match a with WriterClose | WaitGroupWait | ReturnErr => true | _ => false end.

Definition isDone (a : action) : bool :=
  match a with WaitGroupDone => true | _ => false end.

Definition storesNil (a : action) : bool :=
  match a with StoreErr (Some _) => false | _ => true end.

(** [n] calls of [Close], one after the other. *)
Fixpoint Closes (n : nat) : list action :=
  match n with
  | O => []
  | S n' => Close ++ Closes n'
  end.

(** The four ways in which the function in the background runs to its end,
    each with the error it gives to [Release]: the content hash does not
    decode, the transport fails, the status is not 200, the upload
    succeeds. *)
Inductive exit_path : list stmt -> option error -> Prop :=
| exit_decode e :
    exit_path [CloseWithError (Some e); Release (Some e)] (Some e)
| exit_transport req e :
    exit_path [ClientDo req; CloseWithError (Some e); Release (Some e)] (Some e)
| exit_status req :
    exit_path [ClientDo req; CloseWithError None; Release None] None
| exit_success req :
    exit_path [ClientDo req; Release None; ReaderClose] None.

(** The caller has not yet passed the [Wait] of its first [Close]. *)
Definition beforeWait (prog : list action) : bool :=
  match prog with
  | [] => true
  | WriterClose :: WaitGroupWait :: _ => true
  | WaitGroupWait :: _ => true
  | _ => false
  end.

(** What every interleaving keeps: nothing has panicked; the counter of the
    WaitGroup is at most one and is the number of [Done] the sender still
    has to run; the
    caller runs steps of [Close] only and the sender none of them; and
    either the counter is zero or no [Close] has returned. *)
Definition invariant (cfg : config) : Prop :=
  panicked cfg = false /\
  release (b (shared cfg)) <= 1 /\
  release (b (shared cfg)) = Z.of_nat (List.length (filter isDone (sender cfg))) /\
  forallb isCloseStep (caller cfg) = true /\
  forallb (fun a => negb (isCloseStep a)) (sender cfg) = true /\
  (release (b (shared cfg)) = 0 \/
   returned cfg = [] /\ beforeWait (caller cfg) = true).

(** What every interleaving keeps when the sender stores no error: [b.err]
    is nil and so is every value that a [Close] returned. *)
Definition nil_invariant (cfg : config) : Prop :=
  err (b (shared cfg)) = None /\
  forallb storesNil (sender cfg) = true /\
  forallb isCloseStep (caller cfg) = true /\
  Forall (fun v => v = None) (returned cfg).

(** *** Write

    What a [Write] on the pipe returns when it finds one end closed. On a
    pipe with both ends open the call hands its bytes to the reader and
    waits for it: [WriteWaits], the rest being the reader's doing. *)
Inductive written :=
| Wrote (n : Z) (e : option error)
| WriteWaits.

(** [(p *pipe) write]: a closed write end is [ErrClosedPipe]; otherwise a
    closed read end gives the error it was closed with; no byte is
    written in either case. *)
Definition pipe_write (p : pipe) (data : list Byte.byte) : written :=
  match werr p with
  | Some _ => Wrote 0 (Some ErrClosedPipe)
  | None =>
    match rerr p with
    | Some e => Wrote 0 (Some e)
    | None => WriteWaits
    end
  end.

(** [func (b *blockingWriteCloser) Write(p []byte) (int, error)] *)
Definition Write (bw : blockingWriteCloser) (data : list Byte.byte) : written :=
  match pipe_write (w bw) data with
  | Wrote n e => Wrote n (iodine_New e)
  | WriteWaits => WriteWaits
  end.

Definition isReturn (a : action) : bool :=
  match a with ReturnErr => true | _ => false end.

(** The calls of [Close] that have returned or have still to return. *)
Definition returns_due (cfg : config) : nat :=
  (List.length (returned cfg)
   + List.length (List.filter isReturn (caller cfg))
   + List.length (List.filter isReturn (sender cfg)))%nat.

Definition closesReader (a : action) : bool :=
  match a with ReaderCloseWith _ => true | _ => false end.

Definition closesWriter (a : action) : bool :=
  match a with WriterClose => true | _ => false end.

(** Each end of the pipe is closed or some step still to run closes it; a
    closed write end holds [EOF]. *)
Definition pipe_invariant (cfg : config) : Prop :=
  (rerr (w (b (shared cfg))) <> None \/
   existsb closesReader (caller cfg) || existsb closesReader (sender cfg) = true) /\
  (werr (w (b (shared cfg))) = Some EOF \/
   werr (w (b (shared cfg))) = None /\
   existsb closesWriter (caller cfg) || existsb closesWriter (sender cfg) = true).

Definition nil_or (e : option error) (v : option error) : Prop :=
  v = None \/ v = e.

Definition stores_nil_or (e : option error) (a : action) : Prop :=
  match a with
  | StoreErr v => nil_or e v
  | _ => True
  end.

(** When [e] is the only error that the sender may store: [b.err] and every
    value that a [Close] returned are nil or [e]. *)
Definition carried_invariant (e : option error) (cfg : config) : Prop :=
  nil_or e (err (b (shared cfg))) /\
  Forall (stores_nil_or e) (sender cfg) /\
  forallb isCloseStep (caller cfg) = true /\
  Forall (nil_or e) (returned cfg).

(** The error [e] of [Release] is in [b.err] or the step that stores it is
    still to run. *)
Definition stored_invariant (e : option error) (cfg : config) : Prop :=
  carried_invariant e cfg /\
  (In (StoreErr e) (sender cfg) \/ err (b (shared cfg)) = e).



(** The requests that a list of steps hands to the HTTP client. *)
Definition requests_of (steps : list action) : list Request.t :=
  flat_map (fun a => match a with HttpDo req => [req] | _ => [] end) steps.

End S3.

(** ** pipe-main.go *)

Module PipeMain.
Import Go.

(** [probe.Error]: the cause and the trace points recorded so far, each
    with the fields given to [Trace]. *)
Record probeError := { Cause : error; CallTrace : list (list string) }.

(** [(e *Error) Trace(fields ...string)]: nil stays nil. *)
Definition Trace (e : option probeError) (fields : list string) : option probeError :=
  match e with
  | None => None
  | Some e => Some {| Cause := Cause e; CallTrace := CallTrace e ++ [fields] |}
  end.

(** [(e *Error) ToGoError()]. *)
Definition ToGoError (e : option probeError) : option error :=
  match e with
  | None => None
  | Some e => Some (Cause e)
  end.

Definition EPIPE : error := Errno 32.

Inductive file := Stdin.

Section Pipe.
(** [catOut] and [putTargets] live in other files of the command. *)
Variable catOut : file -> option probeError.
Variable putTargets : list string -> Z -> file -> option probeError.

Definition pipe (targetURLs : list string) : option probeError :=
  if Nat.eqb (List.length targetURLs) 0 || bool_decide (targetURLs = []) then
    Trace (catOut Stdin) []
  else
    let err := putTargets targetURLs (-1) Stdin in
    match ToGoError err with
    | Some (PathError _ _ e) =>
      if bool_decide (e = EPIPE) then None else Trace err targetURLs
    | _ => Trace err targetURLs
    end.

End Pipe.

(** Whether an error of a local file is a broken pipe: a [*os.PathError]
    whose [Err] is [EPIPE]. *)
Definition isBrokenPipe (e : error) : bool :=
  match e with
  | PathError _ _ e' => bool_decide (e' = EPIPE)
  | _ => false
  end.

(** Modelled from the spec: [catOut], the copy of the input to the standard
    output that [pipe] calls without targets; it lives in another file of
    the command, which is not among the sources. The spec: the input is
    copied verbatim to the local standard output; when the error that
    surfaces during this copy is a broken pipe, this is a graceful
    termination, not a failure. [copy] is what the copy of the input ended
    with; any other error of the copy is returned as a new [probe.Error]. *)
Definition catOut (copy : file -> option error) (r : file) : option probeError :=
  match copy r with
  | None => None
  | Some e =>
    if isBrokenPipe e then None
    else Some {| Cause := e; CallTrace := [[]] |}
  end.

End PipeMain.

(** ** A concrete client, for running the model *)

Module Demo.
Import Go S3.

Definition respond (status : Z) (h : gmap string (list string)) : Response.t :=
  Response.mk status h 0 [].

(** A client whose transport answers every request with [res], and whose
    [signRequest] adds the two headers of the AWS signature. *)
Definition deps (res : Response.t + error) : Deps := {|
  keyURL c bucket key := Host c +:+ "/" +:+ bucket +:+ "/" +:+ key;
  newReq url userAgent body :=
    Request.mk "GET" url (Header_Set ∅ "User-Agent" userAgent) 0 body;
  signRequest c req host :=
    Request.setHeader (Request.setHeader req "Date" "Tue, 10 Nov 2015 08:00:00 GMT")
      "Authorization" "AWS key:signature";
  NewError r := errorString ("status " +:+ fmt_d (Response.StatusCode r));
  time_Parse layout value :=
    if String.eqb value "Tue, 10 Nov 2015 08:00:00 GMT"
    then inl (mkTime 63582739200 0)
    else inr (errorString "parsing time");
  client_Do req := res
|}.

Definition client (res : Response.t + error) : s3Client :=
  {| Host := "https://s3.amazonaws.com"; UserAgent := "mc"; Transport := fun _ => res |}.

Definition ok : Response.t + error := inl (respond 200 ∅).
Definition forbidden : Response.t + error := inl (respond 403 ∅).

Definition quoted (s : string) : string := quote +:+ s +:+ quote.

(** A 200 with a length and a date, and a 200 with a quoted ETag. *)
Definition modified : string := "Tue, 10 Nov 2015 08:00:00 GMT".

Definition found : Response.t + error :=
  inl (respond 200 (<["Last-Modified" := [modified]]> (<["Content-Length" := ["123"]]> ∅))).

Definition tagged : Response.t + error :=
  inl (respond 200 (<["ETag" := [quoted "abc"]]> ∅)).

(** The handle and the background function of one upload, and the caller
    that closes the handle [n] times. *)
Definition upload (res : Response.t + error) (md5HexString : string) (size : Z)
    : blockingWriteCloser * option error * list stmt :=
  Put (D := deps res) (client res) "bucket" "key" md5HexString size.

Definition closing (res : Response.t + error) (md5HexString : string) (n : nat)
    : config :=
  spawn (upload res md5HexString (-1)) (Closes n).

Definition brokenPipe : error := PathError "read" "/dev/stdin" PipeMain.EPIPE.

(** A transport that fails, a 206 with an ETag, a 200 whose date does not
    parse, and a 200 whose ETag has two pairs of quotes. *)
Definition refused : Response.t + error := inr (errorString "connection refused").

Definition partialContent : Response.t :=
  respond 206 (<["ETag" := [quoted "abc"]]> ∅).

Definition stale : Response.t + error :=
  inl (respond 200 (<["Last-Modified" := ["yesterday"]]> (<["Content-Length" := ["123"]]> ∅))).

Definition twiceQuoted : Response.t + error :=
  inl (respond 200 (<["ETag" := [quoted (quoted "abc")]]> ∅)).

(** The requests that the statements of the background function hand to
    the HTTP client. *)
Definition requests_in (stmts : list stmt) : list Request.t :=
  flat_map (fun s => match s with ClientDo req => [req] | _ => [] end) stmts.

(** The configuration that the schedule leads to. *)
Definition after (sched : list goroutine) (cfg : config) : config :=
  match run sched cfg with
  | Some cfg' => cfg'
  | None => cfg
  end.

(** A [putTargets] that fails with the error [e] whatever the targets. *)
Definition failing (e : error) (targets : list string) (size : Z)
    (f : PipeMain.file) : option PipeMain.probeError :=
  Some {| PipeMain.Cause := e; PipeMain.CallTrace := [[]] |}.

End Demo.

(** * Properties *)

(** ** int64 arithmetic *)

Module Int64Facts.
Import Go.

Lemma wrap64_small z : isInt64 z -> wrap64 z = z.
Proof.
  unfold isInt64, MinInt64, MaxInt64, wrap64. intros Hz.
  rewrite Z.mod_small by lia. lia.
Qed.

Lemma sub64_add64_one a b : sub64 (add64 a b) 1 = wrap64 (a + b - 1).
Proof.
  unfold sub64, add64, wrap64.
  replace ((a + b + 2 ^ 63) mod 2 ^ 64 - 2 ^ 63 - 1 + 2 ^ 63)
    with ((a + b + 2 ^ 63) mod 2 ^ 64 - 1) by lia.
  rewrite Zminus_mod_idemp_l. f_equal. f_equal. lia.
Qed.

Lemma wrap64_range z : isInt64 (wrap64 z).
Proof.
  unfold isInt64, MinInt64, MaxInt64, wrap64.
  pose proof (Z.mod_pos_bound (z + 2 ^ 63) (2 ^ 64) ltac:(lia)). lia.
Qed.

End Int64Facts.

(** ** Strings, hex *)

Module GoFacts.
Import Go.

Lemma rev_string_involutive s : rev_string (rev_string s) = s.
Proof.
  unfold rev_string.
  by rewrite list_ascii_of_string_of_list_ascii, rev_involutive,
    string_of_list_ascii_of_string.
Qed.

Lemma list_ascii_of_string_app s t :
  list_ascii_of_string (s +:+ t) = list_ascii_of_string s ++ list_ascii_of_string t.
Proof. induction s as [| a s IH]; simpl; [reflexivity | by rewrite IH]. Qed.

Lemma length_append s t :
  String.length (s +:+ t) = (String.length s + String.length t)%nat.
Proof. induction s as [| a s IH]; simpl; [reflexivity | by rewrite IH]. Qed.

Lemma rev_string_snoc s a :
  rev_string (s +:+ String a EmptyString) = String a (rev_string s).
Proof.
  unfold rev_string. rewrite list_ascii_of_string_app, rev_app_distr. reflexivity.
Qed.

Lemma trimLeftBytes_avoids cutset s : avoids cutset s -> trimLeftBytes cutset s = s.
Proof.
  destruct s as [| a s]; [reflexivity |].
  unfold avoids. simpl. intros H. inversion H as [| ? ? Ha _]; subst.
  by rewrite Ha.
Qed.

Lemma avoids_rev cutset s : avoids cutset s -> avoids cutset (rev_string s).
Proof.
  unfold avoids, rev_string. rewrite list_ascii_of_string_of_list_ascii.
  apply Forall_rev.
Qed.

(** [Trim] takes one pair of surrounding cutset characters off a string
    that has none inside. *)
Lemma Trim_surrounded a s :
  avoids (String a EmptyString) s ->
  Trim (String a (s +:+ String a EmptyString)) (String a EmptyString) = s.
Proof.
  intros Hs. unfold Trim.
  assert (Hin : inCutset (String a EmptyString) a = true).
  { unfold inCutset. simpl. by rewrite Ascii.eqb_refl. }
  cbn [trimLeftBytes]. rewrite Hin.
  destruct s as [| x s'].
  - simpl. rewrite Hin. reflexivity.
  - assert (Hx : inCutset (String a EmptyString) x = false).
    { unfold avoids in Hs. simpl in Hs. by inversion Hs. }
    change (String x s' +:+ String a EmptyString)
      with (String x (s' +:+ String a EmptyString)).
    cbn [trimLeftBytes]. rewrite Hx.
    change (String x (s' +:+ String a EmptyString))
      with (String x s' +:+ String a EmptyString).
    rewrite rev_string_snoc. cbn [trimLeftBytes]. rewrite Hin.
    rewrite trimLeftBytes_avoids by (by apply avoids_rev).
    apply rev_string_involutive.
Qed.

Lemma byteIs_false n a : N_of_ascii a <> n -> byteIs n a = false.
Proof. unfold byteIs. intros H. by apply N.eqb_neq. Qed.

Lemma byteIn_false lo hi a :
  (N_of_ascii a < lo \/ hi < N_of_ascii a)%N -> byteIn lo hi a = false.
Proof.
  unfold byteIn. intros H.
  destruct (N.leb_spec lo (N_of_ascii a)), (N.leb_spec (N_of_ascii a) hi);
    simpl; try reflexivity; lia.
Qed.

Lemma TrimLeftSpace_plain a s : plain a -> TrimLeftSpace (String a s) = String a s.
Proof.
  intros [Hlt Hsp]. cbn [TrimLeftSpace]. rewrite Hsp.
  assert (H2 : forall b, isSpace2 a b = false).
  { intros b. unfold isSpace2. rewrite (byteIs_false 194) by lia. reflexivity. }
  assert (H3 : forall b c, isSpace3 a b c = false).
  { intros b c. unfold isSpace3.
    rewrite (byteIs_false 225), (byteIs_false 226), (byteIs_false 227) by lia.
    reflexivity. }
  destruct s as [| b [| c s]]; rewrite ?H2, ?H3; reflexivity.
Qed.

Lemma trimLeftSpaceRev_plain c s :
  plain c -> trimLeftSpaceRev (String c s) = String c s.
Proof.
  intros [Hlt Hsp]. cbn [trimLeftSpaceRev]. rewrite Hsp.
  assert (H2 : forall b, isSpace2 b c = false).
  { intros b. unfold isSpace2.
    rewrite (byteIs_false 133), (byteIs_false 160) by lia.
    apply andb_false_r. }
  assert (H3 : forall a b, isSpace3 a b c = false).
  { intros a b. unfold isSpace3.
    rewrite (byteIs_false 128), (byteIs_false 168), (byteIs_false 169),
      (byteIs_false 175), (byteIs_false 159) by lia.
    rewrite (byteIn_false 128 138) by lia.
    rewrite !andb_false_r. reflexivity. }
  destruct s as [| b [| a s]]; rewrite ?H2, ?H3; reflexivity.
Qed.

(** [TrimSpace] leaves a string of plain bytes as it is. *)
Lemma TrimSpace_plain s :
  Forall plain (list_ascii_of_string s) -> TrimSpace s = s.
Proof.
  intros Hs. unfold TrimSpace.
  assert (Hl : TrimLeftSpace s = s).
  { destruct s as [| a s]; [reflexivity |].
    apply TrimLeftSpace_plain. simpl in Hs. by inversion Hs. }
  rewrite Hl. unfold TrimRightSpace.
  assert (Hr : trimLeftSpaceRev (rev_string s) = rev_string s).
  { assert (Hrev : Forall plain (list_ascii_of_string (rev_string s))).
    { unfold rev_string. rewrite list_ascii_of_string_of_list_ascii.
      by apply Forall_rev. }
    destruct (rev_string s) as [| c u]; [reflexivity |].
    apply trimLeftSpaceRev_plain. simpl in Hrev. by inversion Hrev. }
  rewrite Hr. apply rev_string_involutive.
Qed.

Lemma fromHexChar_plain a n : fromHexChar a = Some n -> plain a.
Proof.
  unfold fromHexChar, plain, isSpace1, byteIn, byteIs.
  generalize (N_of_ascii a). intros m H.
  repeat match type of H with
  | context [N.leb ?x ?y] => destruct (N.leb_spec x y); simpl in H
  end; try discriminate;
  (split; [lia |]);
  repeat match goal with
  | |- context [N.leb ?x ?y] => destruct (N.leb_spec x y); simpl
  | |- context [N.eqb ?x ?y] => destruct (N.eqb_spec x y); simpl
  end; try reflexivity; lia.
Qed.

Lemma hexPairs_plain :
  forall s bs, hexPairs s = inl bs -> Forall plain (list_ascii_of_string s).
Proof.
  fix IH 1. intros [| x [| y s']] bs Hdec.
  - constructor.
  - simpl in Hdec. destruct (fromHexChar x); discriminate Hdec.
  - cbn [hexPairs] in Hdec.
    destruct (fromHexChar x) as [a |] eqn:Hx; [| discriminate].
    destruct (fromHexChar y) as [b' |] eqn:Hy; [| discriminate].
    destruct (hexPairs s') as [bs' | e] eqn:Hrest; [| discriminate].
    simpl. constructor; [by eapply fromHexChar_plain |].
    constructor; [by eapply fromHexChar_plain |].
    apply (IH s' bs'). exact Hrest.
Qed.

(** A string that [hex.DecodeString] accepts has no white space in it. *)
Lemma DecodeString_TrimSpace s bs : DecodeString s = inl bs -> TrimSpace s = s.
Proof.
  unfold DecodeString. intros H. apply TrimSpace_plain.
  by apply (hexPairs_plain s bs).
Qed.

End GoFacts.

(** ** GetPartial, Get and StatObject *)

Module S3Facts.
Import Go S3 Int64Facts.

Section WithDeps.
Context {D : Deps}.

Lemma Header_Get_Set h key value : Header_Get (Header_Set h key value) key = value.
Proof. unfold Header_Get, Header_Set. by rewrite lookup_insert_eq. Qed.

Lemma Header_Get_absent (h : gmap string (list string)) key :
  h !! key = None -> Header_Get h key = EmptyString.
Proof. unfold Header_Get. by intros ->. Qed.

(** C5. A negative offset makes [GetPartial] return the [InvalidRange] error
    at once: no body, size 0, no hash, and no request reaches the
    transport. *)
Theorem GetPartial_negative_offset c bucket key offset length :
  offset < 0 ->
  GetPartial c bucket key offset length
  = ((None, 0, EmptyString, Some (Iodine (InvalidRange offset))), []).
Proof.
  intros Hneg. unfold GetPartial.
  destruct (Z.ltb_spec offset 0) as [_ | Hge]; [reflexivity | lia].
Qed.

Lemma GetPartial_sends c bucket key offset length :
  0 <= offset ->
  snd (GetPartial c bucket key offset length)
  = [GetPartial_req c bucket key
       (if 0 <=? length
        then "bytes=" +:+ fmt_d offset +:+ "-" +:+ fmt_d (sub64 (add64 offset length) 1)
        else "bytes=" +:+ fmt_d offset +:+ "-")].
Proof.
  intros Hoff. unfold GetPartial, GetPartial_req.
  destruct (Z.ltb_spec offset 0) as [? | _]; [lia |].
  destruct (0 <=? length); repeat case_match; reflexivity.
Qed.

(** C6, amended. With an offset that is not negative, [GetPartial] sends one
    request. For a length that is not negative its Range header is
    [bytes=<offset>-<last>] with [last] the int64 value of
    [offset+length-1], wrap-around included; when [offset+length-1] fits
    int64, [last] is that number and the bytes [offset..last] are the
    half-open range from [offset] to [offset+length]. For a negative length
    the header is [bytes=<offset>-]. *)
Theorem GetPartial_Range c bucket key offset length :
  signRequest_keeps "Range" ->
  isInt64 offset -> isInt64 length -> 0 <= offset ->
  exists req,
    snd (GetPartial c bucket key offset length) = [req] /\
    (0 <= length ->
       Header_Get (Request.Header req) "Range"
       = "bytes=" +:+ fmt_d offset +:+ "-" +:+ fmt_d (wrap64 (offset + length - 1)) /\
       (offset + length - 1 <= MaxInt64 ->
          Header_Get (Request.Header req) "Range"
          = "bytes=" +:+ fmt_d offset +:+ "-" +:+ fmt_d (offset + length - 1) /\
          forall i, offset <= i <= wrap64 (offset + length - 1)
                    <-> offset <= i < offset + length)) /\
    (length < 0 ->
       Header_Get (Request.Header req) "Range" = "bytes=" +:+ fmt_d offset +:+ "-").
Proof.
  intros Hsign Hoff Hlen Hpos. eexists. split.
  { apply GetPartial_sends. exact Hpos. }
  unfold GetPartial_req. rewrite Hsign. unfold Request.setHeader. simpl.
  rewrite Header_Get_Set. split.
  - intros Hl. destruct (Z.leb_spec 0 length) as [_ | ?]; [| lia].
    rewrite sub64_add64_one. split; [reflexivity |].
    intros Hfit.
    assert (Hw : wrap64 (offset + length - 1) = offset + length - 1).
    { apply wrap64_small. unfold isInt64, MinInt64, MaxInt64 in *. lia. }
    rewrite Hw. split; [reflexivity | intros i; lia].
  - intros Hl. destruct (Z.leb_spec 0 length) as [? | _]; [lia | reflexivity].
Qed.

Lemma StatObject_sends c bucket key :
  bucket <> EmptyString -> key <> EmptyString ->
  snd (StatObject c bucket key) = [StatObject_req c bucket key].
Proof.
  intros Hb Hk. unfold StatObject, StatObject_req.
  apply String.eqb_neq in Hb, Hk. rewrite Hb, Hk. simpl.
  repeat case_match; reflexivity.
Qed.

(** C7. With a bucket and a key that are not empty and a response [res]
    from the transport, [StatObject] maps a 404 to [ObjectNotFound] with the
    bucket and the key; a 200 to the Content-Length parsed in base 10 (a
    parse error when it does not parse) with the Last-Modified parsed as
    RFC1123 (a parse error when it does not parse, the zero time and a nil
    error when the header is absent); every other status to the error that
    [NewError] builds from the response. *)
Theorem StatObject_response c bucket key res :
  bucket <> EmptyString -> key <> EmptyString ->
  Transport c (StatObject_req c bucket key) = inl res ->
  (Response.StatusCode res = 404 ->
     fst (StatObject c bucket key)
     = (0, zeroTime, Some (Iodine (ObjectNotFound bucket key)))) /\
  (Response.StatusCode res = 200 ->
     (forall e, ParseInt (Header_Get (Response.Header res) "Content-Length") = inr e ->
        fst (StatObject c bucket key) = (0, zeroTime, Some (Iodine e))) /\
     (forall size,
        ParseInt (Header_Get (Response.Header res) "Content-Length") = inl size ->
        (Response.Header res !! "Last-Modified" = None ->
           fst (StatObject c bucket key) = (size, zeroTime, None)) /\
        (forall dateStr, Header_Get (Response.Header res) "Last-Modified" = dateStr ->
           dateStr <> EmptyString ->
           (forall date, time_Parse RFC1123 dateStr = inl date ->
              fst (StatObject c bucket key) = (size, date, None)) /\
           (forall e, time_Parse RFC1123 dateStr = inr e ->
              fst (StatObject c bucket key) = (0, zeroTime, Some (Iodine e)))))) /\
  (Response.StatusCode res <> 404 -> Response.StatusCode res <> 200 ->
     fst (StatObject c bucket key) = (0, zeroTime, Some (Iodine (NewError res)))).
Proof.
  intros Hb Hk Hres. unfold StatObject.
  apply String.eqb_neq in Hb, Hk. rewrite Hb, Hk. simpl.
  fold (StatObject_req c bucket key). rewrite Hres.
  unfold StatusNotFound, StatusOK. split; [| split].
  - intros ->. reflexivity.
  - intros ->. simpl. split.
    + intros e ->. reflexivity.
    + intros size ->. split.
      * intros Habs. rewrite (Header_Get_absent _ _ Habs). reflexivity.
      * intros dateStr -> Hne. apply String.eqb_neq in Hne. rewrite Hne. simpl.
        split; [intros date -> | intros e ->]; reflexivity.
  - intros H404 H200.
    destruct (Z.eqb_spec (Response.StatusCode res) 404) as [? | _]; [lia |].
    destruct (Z.eqb_spec (Response.StatusCode res) 200) as [? | _]; [lia |].
    reflexivity.
Qed.

Lemma Get_sends c bucket key : snd (Get c bucket key) = [Get_req c bucket key].
Proof. unfold Get, Get_req. repeat case_match; reflexivity. Qed.

(** C10. On a 200 or a 206 [GetPartial] returns the ETag header as it came;
    on a 200 [Get] returns it with the double quotes trimmed off both ends.
    For one and the same response whose ETag is a hash between double
    quotes, [GetPartial] returns the quoted hash and [Get] the bare one, and
    the two strings differ. *)
Theorem ETag_verbatim_in_GetPartial_trimmed_in_Get c bucket key offset length res :
  0 <= offset ->
  (forall req, Transport c req = inl res) ->
  (Response.StatusCode res = 200 \/ Response.StatusCode res = 206 ->
     fst (GetPartial c bucket key offset length)
     = (Some (Response.Body res), Response.ContentLength res,
        Header_Get (Response.Header res) "ETag", None)) /\
  (Response.StatusCode res = 200 ->
     fst (Get c bucket key)
     = (Some (Response.Body res), Response.ContentLength res,
        Trim (Header_Get (Response.Header res) "ETag") quote, None) /\
     forall hash, avoids quote hash ->
       Header_Get (Response.Header res) "ETag" = quote +:+ hash +:+ quote ->
       snd (fst (fst (GetPartial c bucket key offset length))) = quote +:+ hash +:+ quote /\
       snd (fst (fst (Get c bucket key))) = hash /\
       quote +:+ hash +:+ quote <> hash).
Proof.
  intros Hoff Hres.
  assert (HP : Response.StatusCode res = 200 \/ Response.StatusCode res = 206 ->
     fst (GetPartial c bucket key offset length)
     = (Some (Response.Body res), Response.ContentLength res,
        Header_Get (Response.Header res) "ETag", None)).
  { intros Hst. unfold GetPartial.
    destruct (Z.ltb_spec offset 0) as [? | _]; [lia |].
    rewrite Hres. unfold StatusOK, StatusPartialContent.
    destruct Hst as [-> | ->]; reflexivity. }
  assert (HG : Response.StatusCode res = 200 ->
     fst (Get c bucket key)
     = (Some (Response.Body res), Response.ContentLength res,
        Trim (Header_Get (Response.Header res) "ETag") quote, None)).
  { intros Hst. unfold Get. rewrite Hres, Hst. reflexivity. }
  split; [exact HP | intros Hst; split; [by apply HG |]].
  intros hash Hfree Hetag.
  rewrite HP by (by left). rewrite (HG Hst). simpl. rewrite Hetag.
  split; [reflexivity |]. split.
  - apply (GoFacts.Trim_surrounded "034"%char hash Hfree).
  - intros Heq. apply (f_equal String.length) in Heq.
    rewrite !GoFacts.length_append in Heq. simpl in Heq. lia.
Qed.

Lemma Put_request_ContentLength c bucket key md5HexString size req :
  Put_request c bucket key md5HexString size = inl req ->
  Request.ContentLength req = size.
Proof.
  unfold Put_request. intros H.
  repeat case_match; simplify_eq; reflexivity.
Qed.

Lemma Put_background_ClientDo c bucket key md5HexString size req :
  In (ClientDo req) (Put_background c bucket key md5HexString size) ->
  exists req0, Put_request c bucket key md5HexString size = inl req0 /\
               req = signRequest c req0 (Host c).
Proof.
  unfold Put_background. intros Hin.
  destruct (Put_request c bucket key md5HexString size) as [req0 | e].
  - exists req0. split; [reflexivity |].
    repeat case_match; simpl in Hin;
      (destruct Hin as [Heq | Hin]; [by inversion Heq |]);
      repeat (destruct Hin as [Heq | Hin]; [discriminate Heq |]); destruct Hin.
  - simpl in Hin. repeat (destruct Hin as [Heq | Hin]; [discriminate Heq |]).
    destruct Hin.
Qed.

Lemma Put_background_sends c bucket key md5HexString size req0 :
  Put_request c bucket key md5HexString size = inl req0 ->
  In (ClientDo (signRequest c req0 (Host c)))
     (Put_background c bucket key md5HexString size).
Proof.
  unfold Put_background. intros ->. repeat case_match; left; reflexivity.
Qed.

Lemma Put_request_Body c bucket key md5HexString size req :
  Put_request c bucket key md5HexString size = inl req ->
  Request.Body req
  = Request.Body (newReq (keyURL c bucket key) (UserAgent c) (Some PipeReader)).
Proof.
  unfold Put_request. intros H.
  repeat case_match; simplify_eq; reflexivity.
Qed.

(** C3, amended. The request that [Put] hands to the HTTP client has the
    caller's size as its content length, whatever the size, and the read end
    of the pipe as its body. It declares a fixed length, and then this
    size, exactly when the size is positive; for a negative size and for
    size 0 it declares none. A request is sent whenever the content hash
    is blank or decodes. *)
Theorem Put_declares_length_iff_positive c bucket key md5HexString size :
  signRequest_keeps_length -> signRequest_keeps_body -> newReq_keeps_body ->
  (forall req0, Put_request c bucket key md5HexString size = inl req0 ->
     In (ClientDo (signRequest c req0 (Host c)))
        (Put_background c bucket key md5HexString size)) /\
  (forall req, In (ClientDo req) (Put_background c bucket key md5HexString size) ->
     Request.ContentLength req = size /\
     Request.Body req = Some PipeReader /\
     (is_Some (Request.declaredLength req) <-> 0 < size) /\
     (0 < size -> Request.declaredLength req = Some size) /\
     (size <= 0 -> Request.declaredLength req = None)).
Proof.
  intros Hlength Hbody Hnew. split; [apply Put_background_sends |].
  intros req Hin.
  destruct (Put_background_ClientDo _ _ _ _ _ _ Hin) as (req0 & Hreq & ->).
  assert (Hlen : Request.ContentLength (signRequest c req0 (Host c)) = size).
  { rewrite Hlength. by eapply Put_request_ContentLength. }
  assert (Hpipe : Request.Body (signRequest c req0 (Host c)) = Some PipeReader).
  { rewrite Hbody, (Put_request_Body _ _ _ _ _ _ Hreq). apply Hnew. }
  unfold Request.declaredLength, Request.hasBody. rewrite Hlen, Hpipe.
  split; [reflexivity |]. split; [reflexivity |].
  destruct (Z.ltb_spec size 0); [| destruct (Z.eqb_spec size 0)]; simpl;
    repeat split; intros; try lia; try reflexivity; try (by eexists).
  all: match goal with H : is_Some None |- _ => by destruct H end.
Qed.

End WithDeps.

End S3Facts.

(** ** The blockingWriteCloser: Close against Release *)

Module HandleFacts.
Import Go S3.

Lemma run_app sched1 sched2 cfg :
  run (sched1 ++ sched2) cfg
  = match run sched1 cfg with
    | Some cfg' => run sched2 cfg'
    | None => None
    end.
Proof.
  revert cfg. induction sched1 as [| g sched1 IH]; intros cfg; simpl.
  - reflexivity.
  - destruct (step g cfg); [apply IH | reflexivity].
Qed.

Lemma Closes_closeSteps n : forallb isCloseStep (Closes n) = true.
Proof. induction n; simpl; [reflexivity | exact IHn]. Qed.

Lemma Closes_beforeWait n : beforeWait (Closes n) = true.
Proof. destruct n; reflexivity. Qed.

Lemma exit_path_one_Release l e :
  exit_path l e -> filter isRelease l = [Release e].
Proof. intros H. destruct H; reflexivity. Qed.

(** Once the counter is zero, [n] calls of [Close] in a row all return, each
    with the error stored in the handle. *)
Lemma run_Closes n :
  forall cfg,
    panicked cfg = false -> release (b (shared cfg)) = 0 ->
    caller cfg = Closes n ->
    exists cfg',
      run (repeat Caller (List.length (Closes n))) cfg = Some cfg' /\
      returned cfg' = returned cfg ++ repeat (err (b (shared cfg))) n /\
      caller cfg' = [] /\ sender cfg' = sender cfg /\ panicked cfg' = false /\
      release (b (shared cfg')) = 0 /\
      err (b (shared cfg')) = err (b (shared cfg)) /\
      sent (shared cfg') = sent (shared cfg).
Proof.
  induction n as [| n IH]; intros [[[p r e] snt] clr snd ret pan] Hpan Hrel Hprog;
    simpl in *; subst.
  - eexists. split; [reflexivity |]. simpl. rewrite app_nil_r. auto 10.
  - cbn.
    edestruct (IH {| shared := {| b := {| w := wclose p None; release := 0; err := e |};
                                  sent := snt |};
                     caller := Closes n; sender := snd;
                     returned := ret ++ [e]; panicked := false |})
      as (cfg' & Hrun & Hret & Hrest); [reflexivity .. |].
    exists cfg'. split; [exact Hrun |]. simpl in *.
    rewrite Hret, <- app_assoc. auto.
Qed.

(** The function in the background runs to its end whatever the caller
    does: it leaves the counter at zero and the error of its [Release] in
    the handle. *)
Lemma run_sender l e prog :
  exit_path l e ->
  exists cfg,
    run (repeat Sender (List.length (flat_map steps_of l)))
        (spawn (NewBlockingWriteCloser Pipe, None, l) prog) = Some cfg /\
    caller cfg = prog /\ sender cfg = [] /\ returned cfg = [] /\
    panicked cfg = false /\ release (b (shared cfg)) = 0 /\
    err (b (shared cfg)) = e /\
    sent (shared cfg)
    = flat_map (fun s => match s with ClientDo req => [req] | _ => [] end) l.
Proof.
  intros H. destruct H; eexists; (split; [reflexivity |]); simpl; auto 10.
Qed.

(** The function in the background first, then [n] calls of [Close]: each
    of them returns the error that [Release] carried. *)
Lemma run_sender_first l e n :
  exit_path l e ->
  let cfg0 := spawn (NewBlockingWriteCloser Pipe, None, l) (Closes n) in
  exists cfg,
    run (sender_first cfg0) cfg0 = Some cfg /\
    returned cfg = repeat e n /\ caller cfg = [] /\ sender cfg = [] /\
    panicked cfg = false /\
    sent (shared cfg)
    = flat_map (fun s => match s with ClientDo req => [req] | _ => [] end) l.
Proof.
  intros H cfg0. unfold sender_first. rewrite run_app.
  destruct (run_sender l e (Closes n) H)
    as (cfg1 & Hrun & Hprog & Hsnd & Hret & Hpan & Hrel & Herr & Hsent).
  subst cfg0. cbn [sender caller spawn snd]. rewrite Hrun.
  destruct (run_Closes n cfg1 Hpan Hrel Hprog)
    as (cfg & Hrun' & Hret' & Hc & Hs & Hp & _ & _ & Hsent').
  exists cfg. rewrite Hrun'. rewrite Hret', Hret, Herr, Hs, Hsnd, Hsent', Hsent.
  auto 10.
Qed.

Lemma step_invariant g cfg cfg' :
  invariant cfg -> step g cfg = Some cfg' -> invariant cfg'.
Proof.
  destruct cfg as [[[p r e] snt] clr snd ret pan].
  unfold invariant, step. simpl.
  intros (-> & Hle & Hrel & Hc & Hs & Hw) Hstep.
  destruct g.
  - destruct clr as [| a rest]; [discriminate |].
    simpl in Hc. apply andb_true_iff in Hc as [Ha Hc].
    destruct a; try discriminate Ha; simpl in Hstep.
    + injection Hstep as <-. simpl. repeat split; auto.
      destruct Hw as [-> | [-> Hb]]; [by left | right].
      split; [reflexivity |].
      destruct rest as [| [] rest']; simpl in *; congruence.
    + destruct (Z.eqb_spec r 0) as [-> | Hr]; [| discriminate].
      injection Hstep as <-. simpl. repeat split; auto.
    + injection Hstep as <-. simpl. repeat split; auto.
      destruct Hw as [-> | [_ Hb]]; [by left | discriminate Hb].
  - destruct snd as [| a rest]; [discriminate |].
    simpl in Hs. apply andb_true_iff in Hs as [Ha Hs].
    destruct a; try discriminate Ha; simpl in Hstep, Hrel.
    + destruct (Z.ltb_spec (r - 1) 0) as [Hneg | Hpos]; [lia |].
      injection Hstep as <-. simpl. repeat split; auto; lia.
    + destruct e0; injection Hstep as <-; simpl; repeat split; auto.
    + injection Hstep as <-. simpl. repeat split; auto.
    + injection Hstep as <-. simpl. repeat split; auto.
Qed.

Lemma run_invariant sched :
  forall cfg cfg', invariant cfg -> run sched cfg = Some cfg' -> invariant cfg'.
Proof.
  induction sched as [| g sched IH]; intros cfg cfg' Hinv Hrun; simpl in Hrun.
  - by injection Hrun as <-.
  - destruct (step g cfg) as [cfg1 |] eqn:Hstep; [| discriminate].
    eapply IH; [eapply step_invariant |]; eassumption.
Qed.

Lemma step_nil_invariant g cfg cfg' :
  nil_invariant cfg -> step g cfg = Some cfg' -> nil_invariant cfg'.
Proof.
  destruct cfg as [[[p r e] snt] clr snd ret pan].
  unfold nil_invariant, step. simpl.
  intros (-> & Hs & Hc & Hret) Hstep.
  destruct pan; [discriminate |].
  destruct g.
  - destruct clr as [| a rest]; [discriminate |].
    simpl in Hc. apply andb_true_iff in Hc as [Ha Hc].
    destruct a; try discriminate Ha; simpl in Hstep.
    + injection Hstep as <-. simpl. auto.
    + destruct (r =? 0); [| discriminate].
      injection Hstep as <-. simpl. auto.
    + injection Hstep as <-. simpl. repeat split; auto.
      apply Forall_app. split; [exact Hret | by constructor].
  - destruct snd as [| a rest]; [discriminate |].
    simpl in Hs. apply andb_true_iff in Hs as [Ha Hs].
    destruct a; simpl in Hstep.
    + injection Hstep as <-. simpl. auto.
    + destruct (r =? 0); [| discriminate].
      injection Hstep as <-. simpl. auto.
    + injection Hstep as <-. simpl. repeat split; auto.
      apply Forall_app. split; [exact Hret | by constructor].
    + destruct (r - 1 <? 0); injection Hstep as <-; simpl; auto.
    + destruct e; [discriminate Ha |]. injection Hstep as <-. simpl. auto.
    + injection Hstep as <-. simpl. auto.
    + injection Hstep as <-. simpl. auto.
Qed.

Lemma run_nil_invariant sched :
  forall cfg cfg',
    nil_invariant cfg -> run sched cfg = Some cfg' -> nil_invariant cfg'.
Proof.
  induction sched as [| g sched IH]; intros cfg cfg' Hinv Hrun; simpl in Hrun.
  - by injection Hrun as <-.
  - destruct (step g cfg) as [cfg1 |] eqn:Hstep; [| discriminate].
    eapply IH; [eapply step_nil_invariant |]; eassumption.
Qed.

Lemma spawn_invariant l e n :
  exit_path l e -> invariant (spawn (NewBlockingWriteCloser Pipe, None, l) (Closes n)).
Proof.
  intros H. unfold invariant.
  destruct H; simpl; rewrite ?Closes_closeSteps, ?Closes_beforeWait;
    repeat split; auto; lia.
Qed.

Lemma spawn_nil_invariant l n :
  exit_path l None ->
  nil_invariant (spawn (NewBlockingWriteCloser Pipe, None, l) (Closes n)).
Proof.
  intros H. unfold nil_invariant.
  inversion H; subst; simpl; rewrite ?Closes_closeSteps; repeat split; auto.
Qed.

End HandleFacts.

(** ** What every interleaving keeps, and how a run ends *)

Module MoreHandleFacts.
Import Go S3 HandleFacts.

(** The cases of one step: which goroutine, which action, which outcome. *)
Ltac step_cases g clr snd pan Hstep :=
  unfold step in Hstep; simpl in Hstep;
  destruct pan; [discriminate Hstep |];
  destruct g; [destruct clr as [| [] ?] | destruct snd as [| [] ?]];
  simpl in Hstep; try discriminate Hstep;
  repeat match type of Hstep with
  | context [if ?c then _ else _] =>
    destruct c eqn:?; simpl in Hstep; try discriminate Hstep
  | context [match ?x with Some _ => _ | None => _ end] =>
    is_var x; destruct x; simpl in Hstep
  end;
  injection Hstep as <-; simpl in *.

Lemma step_returns_due g cfg cfg' :
  step g cfg = Some cfg' -> returns_due cfg' = returns_due cfg.
Proof.
  destruct cfg as [[[p r e] snt] clr snd ret pan]. intros Hstep.
  unfold returns_due. step_cases g clr snd pan Hstep; rewrite ?length_app; simpl; lia.
Qed.

Lemma run_returns_due sched :
  forall cfg cfg', run sched cfg = Some cfg' -> returns_due cfg' = returns_due cfg.
Proof.
  induction sched as [| g sched IH]; intros cfg cfg' Hrun; simpl in Hrun.
  - by injection Hrun as <-.
  - destruct (step g cfg) as [cfg1 |] eqn:Hstep; [| discriminate].
    rewrite (IH _ _ Hrun). by eapply step_returns_due.
Qed.

Lemma step_pipe_invariant g cfg cfg' :
  pipe_invariant cfg -> step g cfg = Some cfg' -> pipe_invariant cfg'.
Proof.
  destruct cfg as [[[[re we] r e] snt] clr snd ret pan].
  unfold pipe_invariant. simpl. intros [Hr Hw] Hstep.
  step_cases g clr snd pan Hstep;
    rewrite ?orb_true_r in *;
    (split; [try (left; discriminate); try exact Hr
            | try (left; reflexivity); try exact Hw]).
  all: try (left; destruct re; discriminate).
  all: destruct Hw as [-> | [-> _]]; left; reflexivity.
Qed.

Lemma run_pipe_invariant sched :
  forall cfg cfg',
    pipe_invariant cfg -> run sched cfg = Some cfg' -> pipe_invariant cfg'.
Proof.
  induction sched as [| g sched IH]; intros cfg cfg' Hinv Hrun; simpl in Hrun.
  - by injection Hrun as <-.
  - destruct (step g cfg) as [cfg1 |] eqn:Hstep; [| discriminate].
    eapply IH; [eapply step_pipe_invariant |]; eassumption.
Qed.

Lemma step_carried_invariant e g cfg cfg' :
  carried_invariant e cfg -> step g cfg = Some cfg' -> carried_invariant e cfg'.
Proof.
  destruct cfg as [[[p r e0] snt] clr snd ret pan].
  unfold carried_invariant. simpl. intros (He & Hs & Hc & Hret) Hstep.
  step_cases g clr snd pan Hstep;
    try discriminate Hc;
    try (inversion Hs as [| ? ? Ha Hs']; subst; simpl in Ha);
    repeat split; auto;
    try (apply Forall_app; split; [assumption | by constructor]).
Qed.

Lemma run_carried_invariant e sched :
  forall cfg cfg',
    carried_invariant e cfg -> run sched cfg = Some cfg' -> carried_invariant e cfg'.
Proof.
  induction sched as [| g sched IH]; intros cfg cfg' Hinv Hrun; simpl in Hrun.
  - by injection Hrun as <-.
  - destruct (step g cfg) as [cfg1 |] eqn:Hstep; [| discriminate].
    eapply IH; [eapply step_carried_invariant |]; eassumption.
Qed.

Lemma step_stored_invariant e g cfg cfg' :
  stored_invariant e cfg -> step g cfg = Some cfg' -> stored_invariant e cfg'.
Proof.
  intros [Hcar Hst] Hstep.
  split; [by eapply step_carried_invariant |].
  destruct cfg as [[[p r e0] snt] clr snd ret pan].
  destruct Hcar as (He & Hs & Hc & Hret). simpl in *.
  step_cases g clr snd pan Hstep; try discriminate Hc; auto.
  all: try (destruct Hst as [[Heq | Hin] | Heq]; try discriminate Heq; auto; fail).
  - inversion Hs as [| ? ? Ha _]. simpl in Ha.
    destruct Ha as [Ha | Ha]; [discriminate Ha | by right].
  - destruct Hst as [[Heq | Hin] | Heq]; auto.
    injection Heq as <-. right. by destruct He.
Qed.

Lemma run_stored_invariant e sched :
  forall cfg cfg',
    stored_invariant e cfg -> run sched cfg = Some cfg' -> stored_invariant e cfg'.
Proof.
  induction sched as [| g sched IH]; intros cfg cfg' Hinv Hrun; simpl in Hrun.
  - by injection Hrun as <-.
  - destruct (step g cfg) as [cfg1 |] eqn:Hstep; [| discriminate].
    eapply IH; [eapply step_stored_invariant |]; eassumption.
Qed.

(** The requests sent and the requests still to send make up the same list
    throughout. *)
Lemma step_requests g cfg cfg' :
  forallb isCloseStep (caller cfg) = true ->
  step g cfg = Some cfg' ->
  forallb isCloseStep (caller cfg') = true /\
  sent (shared cfg') ++ requests_of (sender cfg')
  = sent (shared cfg) ++ requests_of (sender cfg).
Proof.
  destruct cfg as [[[p r e0] snt] clr snd ret pan]. simpl. intros Hc Hstep.
  step_cases g clr snd pan Hstep; try discriminate Hc;
    rewrite <- ?app_assoc; auto.
Qed.

Lemma run_requests sched :
  forall cfg cfg',
    forallb isCloseStep (caller cfg) = true ->
    run sched cfg = Some cfg' ->
    sent (shared cfg') ++ requests_of (sender cfg')
    = sent (shared cfg) ++ requests_of (sender cfg).
Proof.
  induction sched as [| g sched IH]; intros cfg cfg' Hc Hrun; simpl in Hrun.
  - by injection Hrun as <-.
  - destruct (step g cfg) as [cfg1 |] eqn:Hstep; [| discriminate].
    destruct (step_requests _ _ _ Hc Hstep) as [Hc1 Heq].
    rewrite (IH _ _ Hc1 Hrun). exact Heq.
Qed.



(** The sender can always take its next step. *)
Lemma step_sender_enabled cfg a rest :
  invariant cfg -> sender cfg = a :: rest ->
  exists cfg',
    step Sender cfg = Some cfg' /\ sender cfg' = rest /\
    caller cfg' = caller cfg /\ returned cfg' = returned cfg.
Proof.
  destruct cfg as [[[p r e0] snt] clr snd ret pan].
  unfold invariant. simpl. intros (-> & Hle & Hrel & Hc & Hs & Hw) ->.
  simpl in Hs. apply andb_true_iff in Hs as [Ha Hs].
  unfold step. simpl.
  destruct a; try discriminate Ha; simpl in *.
  - destruct (Z.ltb_spec (r - 1) 0); [lia |]. eexists. split; [reflexivity |]. auto.
  - destruct e; eexists; (split; [reflexivity |]); auto.
  - eexists. split; [reflexivity |]. auto.
  - eexists. split; [reflexivity |]. auto.
Qed.

Lemma finish_sender k :
  forall cfg,
    List.length (sender cfg) = k -> invariant cfg ->
    exists cfg',
      run (repeat Sender k) cfg = Some cfg' /\ sender cfg' = [] /\
      caller cfg' = caller cfg /\ returned cfg' = returned cfg /\
      invariant cfg'.
Proof.
  induction k as [| k IH]; intros cfg Hlen Hinv.
  - exists cfg. destruct (sender cfg); [auto | discriminate].
  - destruct (sender cfg) as [| a rest] eqn:Hs; [discriminate |].
    destruct (step_sender_enabled cfg a rest Hinv Hs) as (cfg1 & Hstep & Hs1 & Hc1 & Hr1).
    destruct (IH cfg1) as (cfg' & Hrun & Hs' & Hc' & Hr' & Hinv').
    + rewrite Hs1. simpl in Hlen. lia.
    + by eapply step_invariant.
    + exists cfg'. simpl. rewrite Hstep, Hrun, Hc', Hr', Hc1, Hr1. auto.
Qed.

(** With the counter at zero the caller runs its calls of [Close] to the
    end. *)
Lemma finish_caller k :
  forall cfg,
    List.length (caller cfg) = k ->
    panicked cfg = false -> release (b (shared cfg)) = 0 ->
    forallb isCloseStep (caller cfg) = true ->
    exists cfg',
      run (repeat Caller k) cfg = Some cfg' /\ caller cfg' = [] /\
      sender cfg' = sender cfg /\ panicked cfg' = false.
Proof.
  induction k as [| k IH];
    intros [[[p r e0] snt] clr snd ret pan] Hlen Hpan Hrel Hc; simpl in *; subst.
  - exists {| shared := {| b := {| w := p; release := 0; err := e0 |}; sent := snt |};
              caller := clr; sender := snd; returned := ret; panicked := false |}.
    destruct clr; [auto | discriminate].
  - destruct clr as [| a rest]; [discriminate |].
    simpl in Hc. apply andb_true_iff in Hc as [Ha Hc].
    destruct a; try discriminate Ha; unfold step; simpl;
      (edestruct IH as (cfg' & Hrun & Hdone & Hsnd & Hp);
       [| | | | exists cfg'; split; [exact Hrun | auto]]);
      simpl; auto.
Qed.

Lemma no_Done_left l :
  ~ In WaitGroupDone l -> List.length (filter isDone l) = 0%nat.
Proof.
  induction l as [| a l IH]; [reflexivity |].
  intros Hnot. rewrite filter_cons.
  destruct a; simpl;
    try (apply IH; intros Hin; apply Hnot; by right).
  exfalso. apply Hnot. by left.
Qed.

Lemma Closes_returns n : List.length (List.filter isReturn (Closes n)) = n.
Proof. induction n as [| n IH]; simpl; [reflexivity | by rewrite IH]. Qed.

Lemma closeSteps_leave_reader l :
  forallb isCloseStep l = true -> existsb closesReader l = false.
Proof.
  induction l as [| a l IH]; simpl; [reflexivity |].
  intros H. apply andb_true_iff in H as [Ha Hl].
  destruct a; try discriminate Ha; simpl; auto.
Qed.

Lemma senderSteps_leave_writer l :
  forallb (fun a => negb (isCloseStep a)) l = true -> existsb closesWriter l = false.
Proof.
  induction l as [| a l IH]; simpl; [reflexivity |].
  intros H. apply andb_true_iff in H as [Ha Hl].
  destruct a; try discriminate Ha; simpl; auto.
Qed.

Lemma spawn_pipe_invariant l e n :
  exit_path l e -> (1 <= n)%nat ->
  pipe_invariant (spawn (NewBlockingWriteCloser Pipe, None, l) (Closes n)).
Proof.
  intros H Hn. destruct n as [| n]; [lia |].
  unfold pipe_invariant. destruct H; simpl; rewrite ?orb_true_r; auto.
Qed.

Lemma spawn_stored_invariant l e n :
  exit_path l e ->
  stored_invariant e (spawn (NewBlockingWriteCloser Pipe, None, l) (Closes n)).
Proof.
  intros H. unfold stored_invariant, carried_invariant.
  destruct H; simpl; rewrite ?Closes_closeSteps;
    (split; [| auto 10]);
    (split; [by left |]); (split; [| by split]);
    repeat (apply List.Forall_cons; [simpl; unfold nil_or; auto |]);
    apply List.Forall_nil.
Qed.

Lemma spawn_returns_due l e n :
  exit_path l e ->
  returns_due (spawn (NewBlockingWriteCloser Pipe, None, l) (Closes n)) = n.
Proof.
  intros H. unfold returns_due. destruct H; simpl; rewrite Closes_returns; lia.
Qed.

End MoreHandleFacts.

(** ** Put *)

Module PutFacts.
Import Go S3 HandleFacts MoreHandleFacts.

Section WithDeps.
Context {D : Deps}.

Lemma Put_background_decode_error c bucket key md5HexString size e :
  Put_request c bucket key md5HexString size = inr e ->
  Put_background c bucket key md5HexString size
  = [CloseWithError (Some (Iodine e)); Release (Some (Iodine e))].
Proof. unfold Put_background. intros ->. reflexivity. Qed.

Lemma Put_background_status c bucket key md5HexString size req0 res :
  Put_request c bucket key md5HexString size = inl req0 ->
  client_Do (signRequest c req0 (Host c)) = inl res ->
  Response.StatusCode res <> 200 ->
  Put_background c bucket key md5HexString size
  = [ClientDo (signRequest c req0 (Host c)); CloseWithError None; Release None].
Proof.
  unfold Put_background. intros -> -> Hst. unfold StatusOK.
  destruct (Z.eqb_spec (Response.StatusCode res) 200); [contradiction | reflexivity].
Qed.

(** Whatever its inputs and whatever the transport answers, the function in
    the background takes one of the four exit paths. *)
Lemma Put_exit_path c bucket key md5HexString size :
  exists e, exit_path (Put_background c bucket key md5HexString size) e.
Proof.
  unfold Put_background. repeat case_match; simpl; eexists; constructor.
Qed.

Lemma Put_request_decode_error c bucket key md5HexString size e :
  TrimSpace md5HexString <> EmptyString ->
  DecodeString md5HexString = inr e ->
  Put_request c bucket key md5HexString size = inr e.
Proof.
  intros Hne Hdec. unfold Put_request.
  apply String.eqb_neq in Hne. rewrite Hne, Hdec. reflexivity.
Qed.

Lemma Put_request_decoded c bucket key md5HexString size md5 :
  md5HexString <> EmptyString ->
  DecodeString md5HexString = inl md5 ->
  exists req,
    Put_request c bucket key md5HexString size = inl req /\
    Header_Get (Request.Header req) "Content-MD5" = EncodeToString md5.
Proof.
  intros Hne Hdec. unfold Put_request.
  rewrite (GoFacts.DecodeString_TrimSpace _ _ Hdec).
  apply String.eqb_neq in Hne. rewrite Hne, Hdec. simpl.
  eexists. split; [reflexivity |]. simpl. apply S3Facts.Header_Get_Set.
Qed.

(** C2, as the code runs it. When the HTTP client answers with a status
    that is not 200, the error given to [Release] is nil: nothing panics,
    and every [Close] that returns, in every interleaving, returns nil.
    With the sender first, [Close] does return, and returns nil. *)
Theorem Put_non200_Close_returns_nil c bucket key md5HexString size req0 res :
  Put_request c bucket key md5HexString size = inl req0 ->
  client_Do (signRequest c req0 (Host c)) = inl res ->
  Response.StatusCode res <> 200 ->
  filter isRelease (snd (Put c bucket key md5HexString size)) = [Release None] /\
  (forall n sched cfg,
     run sched (spawn (Put c bucket key md5HexString size) (Closes n)) = Some cfg ->
     panicked cfg = false /\ Forall (fun v => v = None) (returned cfg)) /\
  (exists cfg,
     run (sender_first (spawn (Put c bucket key md5HexString size) Close))
         (spawn (Put c bucket key md5HexString size) Close) = Some cfg /\
     returned cfg = [None] /\ panicked cfg = false).
Proof.
  intros Hreq Hdo Hst. unfold Put. cbn [snd].
  rewrite (Put_background_status _ _ _ _ _ _ _ Hreq Hdo Hst).
  pose proof (exit_status (signRequest c req0 (Host c))) as Hpath.
  split; [reflexivity |]. split.
  - intros n sched cfg Hrun. split.
    + eapply run_invariant in Hrun; [apply Hrun |].
      by eapply spawn_invariant.
    + eapply run_nil_invariant in Hrun; [apply Hrun |].
      by apply spawn_nil_invariant.
  - destruct (run_sender_first _ _ 1 Hpath) as (cfg & Hrun & Hret & _ & _ & Hpan & _).
    exists cfg. auto.
Qed.

(** C4, amended. [Put] returns its handle with a nil error whatever the
    content hash. A hash that is not blank (not empty once white space is
    trimmed) and that does not decode as hexadecimal sends no request: the
    decode error goes to [Release], and a [Close] that runs once the sender
    has finished returns it. A blank hash is not decoded and sets no
    header. A hash that is not empty and decodes puts the base64 of the
    decoded bytes in the Content-MD5 header of the request. *)
Theorem Put_content_hash c bucket key md5HexString size :
  signRequest_keeps "Content-MD5" ->
  snd (fst (Put c bucket key md5HexString size)) = None /\
  (TrimSpace md5HexString = EmptyString ->
     exists req,
       Put_request c bucket key md5HexString size = inl req /\
       Request.Header req
       = Request.Header (newReq (keyURL c bucket key) (UserAgent c) (Some PipeReader))) /\
  (forall e,
     TrimSpace md5HexString <> EmptyString ->
     DecodeString md5HexString = inr e ->
     snd (Put c bucket key md5HexString size)
     = [CloseWithError (Some (Iodine e)); Release (Some (Iodine e))] /\
     exists cfg,
       run (sender_first (spawn (Put c bucket key md5HexString size) Close))
           (spawn (Put c bucket key md5HexString size) Close) = Some cfg /\
       returned cfg = [Some (Iodine e)] /\ sent (shared cfg) = []) /\
  (forall md5,
     md5HexString <> EmptyString ->
     DecodeString md5HexString = inl md5 ->
     exists req,
       In (ClientDo req) (snd (Put c bucket key md5HexString size)) /\
       Header_Get (Request.Header req) "Content-MD5" = EncodeToString md5).
Proof.
  intros Hsign. split; [reflexivity |]. split; [| split].
  - intros Hblank. unfold Put_request. rewrite Hblank. simpl.
    eexists. split; reflexivity.
  - intros e Hne Hdec. unfold Put. cbn [snd].
    rewrite (Put_background_decode_error _ _ _ _ _ _
               (Put_request_decode_error c bucket key _ size _ Hne Hdec)).
    split; [reflexivity |].
    destruct (run_sender_first _ _ 1 (exit_decode (Iodine e)))
      as (cfg & Hrun & Hret & _ & _ & _ & Hsent).
    exists cfg. auto.
  - intros md5 Hne Hdec.
    destruct (Put_request_decoded c bucket key _ size _ Hne Hdec) as (req & Hreq & Hmd5).
    exists (signRequest c req (Host c)). split.
    + by apply S3Facts.Put_background_sends.
    + by rewrite Hsign.
Qed.

(** C8, amended. The function that [Put] starts calls [Release] once on
    each of its exit paths. The counter of the WaitGroup starts at one; in
    every interleaving with any number of [Close] calls nothing panics, the
    counter stays between zero and one, and no [Close] has returned while
    it is one. In every interleaving, once the [Done] of [Release] has run
    the counter is zero, and from there the caller alone runs every one of
    its [Close] calls to its return, the one that was waiting and those
    still to come, whatever their number and with no further step of the
    sender. With the sender first, every one of the [Close] calls
    returns. *)
Theorem Release_once_unblocks_every_Close c bucket key md5HexString size :
  List.length (filter isRelease (snd (Put c bucket key md5HexString size))) = 1%nat /\
  release (fst (fst (Put c bucket key md5HexString size))) = 1 /\
  (forall n sched cfg,
     run sched (spawn (Put c bucket key md5HexString size) (Closes n)) = Some cfg ->
     panicked cfg = false /\
     0 <= release (b (shared cfg)) <= 1 /\
     (returned cfg <> [] -> release (b (shared cfg)) = 0)) /\
  (forall n sched cfg,
     run sched (spawn (Put c bucket key md5HexString size) (Closes n)) = Some cfg ->
     ~ In WaitGroupDone (sender cfg) ->
     release (b (shared cfg)) = 0 /\
     exists cfg',
       run (repeat Caller (List.length (caller cfg))) cfg = Some cfg' /\
       caller cfg' = [] /\ sender cfg' = sender cfg /\
       panicked cfg' = false /\ List.length (returned cfg') = n) /\
  (forall n,
     exists cfg,
       run (sender_first (spawn (Put c bucket key md5HexString size) (Closes n)))
           (spawn (Put c bucket key md5HexString size) (Closes n)) = Some cfg /\
       List.length (returned cfg) = n /\ caller cfg = [] /\ sender cfg = []).
Proof.
  unfold Put. cbn [fst snd].
  destruct (Put_exit_path c bucket key md5HexString size) as [e Hpath].
  split; [by rewrite (exit_path_one_Release _ _ Hpath) |].
  split; [reflexivity |]. split; [| split].
  - intros n sched cfg Hrun.
    eapply run_invariant in Hrun; [| by eapply spawn_invariant].
    destruct Hrun as (Hpan & Hle & Hrel & _ & _ & Hw).
    repeat split; auto; try lia.
    intros Hret. destruct Hw as [? | [? _]]; [assumption | contradiction].
  - intros n sched cfg Hrun Hdone.
    pose proof (run_returns_due _ _ _ Hrun) as Hdue.
    rewrite (spawn_returns_due _ _ n Hpath) in Hdue.
    eapply run_invariant in Hrun; [| by eapply spawn_invariant].
    destruct Hrun as (Hpan & _ & Hrel & Hclose & Hsend & _).
    rewrite (no_Done_left _ Hdone) in Hrel. simpl in Hrel.
    split; [exact Hrel |].
    destruct (finish_caller _ cfg eq_refl Hpan Hrel Hclose)
      as (cfg' & Hrun' & Hc' & Hs' & Hp').
    exists cfg'. repeat split; auto.
    pose proof (run_returns_due _ _ _ Hrun') as Hdue'.
    assert (Hnone : List.length (List.filter isReturn (sender cfg)) = 0%nat).
    { clear - Hsend. induction (sender cfg) as [| a l IH]; [reflexivity |].
      simpl in Hsend. apply andb_true_iff in Hsend as [Ha Hl].
      destruct a; try discriminate Ha; simpl; auto. }
    unfold returns_due in Hdue', Hdue.
    rewrite Hc', Hs', Hnone in Hdue'. rewrite Hnone in Hdue. simpl in *. lia.
  - intros n.
    destruct (run_sender_first _ _ n Hpath) as (cfg & Hrun & Hret & Hc & Hs & _).
    exists cfg. rewrite Hret, repeat_length. auto.
Qed.

(** C9, as the code runs it. When the content hash does not decode,
    [Release] carries the decode error, and there is an interleaving in
    which [Close] returns nil: the sender runs [Done], [Close] passes its
    [Wait] and reads [b.err], and only then does the sender store the
    error. *)
Theorem Close_returns_nil_before_Release_stores c bucket key md5HexString size e :
  Put_request c bucket key md5HexString size = inr e ->
  In (Release (Some (Iodine e))) (snd (Put c bucket key md5HexString size)) /\
  exists cfg,
    run [Sender; Sender; Caller; Caller; Caller; Sender]
        (spawn (Put c bucket key md5HexString size) Close) = Some cfg /\
    returned cfg = [None] /\
    err (b (shared cfg)) = Some (Iodine e) /\
    caller cfg = [] /\ sender cfg = [] /\ panicked cfg = false.
Proof.
  intros Hreq. unfold Put. cbn [snd].
  rewrite (Put_background_decode_error _ _ _ _ _ _ Hreq).
  split; [right; left; reflexivity |].
  eexists. split; [reflexivity |]. simpl. auto.
Qed.

End WithDeps.

End PutFacts.

(** ** pipe *)

Module PipeFacts.
Import Go PipeMain.

(** C1, amended. Without targets, a broken pipe that surfaces during the
    copy to the standard output is a graceful end: [pipe] returns nil.
    With one or more targets [pipe] calls [putTargets] with size -1: a nil
    error stays nil; a [*os.PathError] whose [Err] is [EPIPE] gives nil
    too, the graceful exit; every other error comes back with the targets
    recorded in its trace. *)
Theorem pipe_graceful_on_broken_pipe copy putTargets targetURLs :
  (targetURLs = [] ->
     forall e, copy Stdin = Some e -> isBrokenPipe e = true ->
       pipe (catOut copy) putTargets targetURLs = None) /\
  (targetURLs <> [] ->
     (putTargets targetURLs (-1) Stdin = None ->
        pipe (catOut copy) putTargets targetURLs = None) /\
     (forall e, putTargets targetURLs (-1) Stdin = Some e ->
        (forall op path, Cause e = PathError op path EPIPE ->
           pipe (catOut copy) putTargets targetURLs = None) /\
        ((forall op path, Cause e <> PathError op path EPIPE) ->
           pipe (catOut copy) putTargets targetURLs
           = Some {| Cause := Cause e; CallTrace := CallTrace e ++ [targetURLs] |}))).
Proof.
  split.
  - intros -> e Hcopy Hbroken. unfold pipe, catOut. simpl.
    rewrite Hcopy, Hbroken. reflexivity.
  - intros Hne. unfold pipe.
    destruct targetURLs as [| t ts]; [contradiction |].
    rewrite bool_decide_eq_false_2 by discriminate. simpl.
    split; [intros ->; reflexivity |].
    intros e ->. simpl. split.
    + intros op path ->. rewrite bool_decide_eq_true_2 by reflexivity. reflexivity.
    + intros Hother. destruct (Cause e) as [| | | | | op path e' | | | | | |] eqn:Hc;
        try reflexivity.
      case_bool_decide as He; [| reflexivity].
      subst e'. exfalso. by eapply Hother.
Qed.

End PipeFacts.

(** ** The properties at concrete inputs *)

Module Examples.
Import Go S3 Demo.

Lemma signRequest_keeps_demo res name :
  name <> "Date" -> name <> "Authorization" ->
  signRequest_keeps (D := deps res) name.
Proof.
  intros Hd Ha c req host. unfold Header_Get. simpl. unfold Header_Set.
  rewrite !lookup_insert_ne by congruence. reflexivity.
Qed.

Lemma signRequest_keeps_length_demo res : signRequest_keeps_length (D := deps res).
Proof. intros c req host. reflexivity. Qed.

Lemma isInt64_10 : isInt64 10.
Proof. unfold isInt64, MinInt64, MaxInt64. lia. Qed.

Lemma isInt64_5 : isInt64 5.
Proof. unfold isInt64, MinInt64, MaxInt64. lia. Qed.

(** The library models on known values. *)

Example TrimSpace_tabs_and_spaces :
  TrimSpace (String "009" (" a b " +:+ String "010" EmptyString)) = "a b".
Proof. reflexivity. Qed.

Example TrimSpace_no_break_space :
  TrimSpace (String (ascii_of_N 194) (String (ascii_of_N 160) EmptyString))
  = EmptyString.
Proof. reflexivity. Qed.

Example DecodeString_odd : DecodeString "abc" = inr ErrLength.
Proof. reflexivity. Qed.

Example DecodeString_bad_byte : DecodeString "0g" = inr (InvalidByteError "g").
Proof. reflexivity. Qed.

Example EncodeToString_Man :
  match DecodeString "4d616e" with
  | inl bytes => EncodeToString bytes
  | inr _ => EmptyString
  end = "TWFu".
Proof. reflexivity. Qed.

Example EncodeToString_padding :
  match DecodeString "4D61" with
  | inl bytes => EncodeToString bytes
  | inr _ => EmptyString
  end = "TWE=".
Proof. reflexivity. Qed.

Example ParseInt_123 : ParseInt "123" = inl 123.
Proof. reflexivity. Qed.

Example ParseInt_min : ParseInt "-9223372036854775808" = inl MinInt64.
Proof. reflexivity. Qed.

Example ParseInt_out_of_range :
  ParseInt "9223372036854775808"
  = inr (NumError "ParseInt" "9223372036854775808" ErrRange).
Proof. reflexivity. Qed.

Example ParseInt_syntax : ParseInt "12a" = inr (NumError "ParseInt" "12a" ErrSyntax).
Proof. reflexivity. Qed.

Example fmt_d_negative : fmt_d (-42) = "-42".
Proof. reflexivity. Qed.

Example Range_to_the_end :
  map (fun req => Header_Get (Request.Header req) "Range")
      (snd (GetPartial (D := deps ok) (client ok) "bucket" "key" 10 (-1)))
  = ["bytes=10-"].
Proof. vm_compute. reflexivity. Qed.

Example StatObject_not_found :
  fst (StatObject (D := deps ok) (client (inl (respond 404 ∅))) "bucket" "key")
  = (0, zeroTime, Some (Iodine (ObjectNotFound "bucket" "key"))).
Proof. vm_compute. reflexivity. Qed.

Example StatObject_empty_key :
  StatObject (D := deps ok) (client ok) "bucket" ""
  = ((0, zeroTime, Some (Iodine InvalidArgument)), []).
Proof. reflexivity. Qed.

Example Close_blocks_before_Release :
  run [Caller; Caller] (spawn (upload ok "" (-1)) Close) = None.
Proof. reflexivity. Qed.

(** [GetPartial] with offset -1: the error, and no request. *)
Lemma GetPartial_negative_offset_witness :
  -1 < 0 /\
  GetPartial (D := deps ok) (client ok) "bucket" "key" (-1) 5
  = ((None, 0, EmptyString, Some (Iodine (InvalidRange (-1)))), []).
Proof.
  split; [lia |].
  apply (S3Facts.GetPartial_negative_offset (D := deps ok)). lia.
Defined.

(** [GetPartial] with offset 10 and length 5 asks for the bytes 10-14. *)
Lemma GetPartial_Range_witness :
  exists req,
    snd (GetPartial (D := deps ok) (client ok) "bucket" "key" 10 5) = [req] /\
    Header_Get (Request.Header req) "Range" = "bytes=10-14".
Proof.
  destruct (S3Facts.GetPartial_Range (D := deps ok) (client ok) "bucket" "key" 10 5
              (signRequest_keeps_demo ok "Range" ltac:(discriminate) ltac:(discriminate))
              isInt64_10 isInt64_5 ltac:(lia))
    as (req & Hsent & Hpos & _).
  exists req. split; [exact Hsent |].
  destruct (Hpos ltac:(lia)) as [_ Hfit].
  destruct (Hfit ltac:(unfold MaxInt64; lia)) as [Hrange _]. exact Hrange.
Defined.

(** C6 as it is stated fails where [offset+length-1] leaves int64: with the
    largest offset and length 2 the header ends in the wrapped value, not in
    [offset+length-1]. *)
Lemma GetPartial_Range_wraps :
  0 <= MaxInt64 /\ 0 <= 2 /\
  map (fun req => Header_Get (Request.Header req) "Range")
      (snd (GetPartial (D := deps ok) (client ok) "bucket" "key" MaxInt64 2))
  = ["bytes=9223372036854775807--9223372036854775808"] /\
  "bytes=9223372036854775807--9223372036854775808"
  <> "bytes=" +:+ fmt_d MaxInt64 +:+ "-" +:+ fmt_d (MaxInt64 + 2 - 1).
Proof.
  split; [unfold MaxInt64; lia |]. split; [lia |]. split.
  - vm_compute. reflexivity.
  - vm_compute. discriminate.
Qed.

(** [StatObject] on a 200 with Content-Length 123 and a Last-Modified that
    parses. *)
Lemma StatObject_response_witness :
  fst (StatObject (D := deps found) (client found) "bucket" "key")
  = (123, mkTime 63582739200 0, None).
Proof.
  destruct (S3Facts.StatObject_response (D := deps found) (client found)
              "bucket" "key" (respond 200
                 (<["Last-Modified" := [modified]]> (<["Content-Length" := ["123"]]> ∅)))
              ltac:(discriminate) ltac:(discriminate) eq_refl)
    as (_ & H200 & _).
  destruct (H200 eq_refl) as [_ Hsize].
  destruct (Hsize 123 ltac:(vm_compute; reflexivity)) as [_ Hdate].
  destruct (Hdate modified ltac:(vm_compute; reflexivity) ltac:(discriminate))
    as [Hparsed _].
  apply Hparsed. vm_compute. reflexivity.
Defined.

(** One response with a quoted ETag: [GetPartial] gives the hash with its
    quotes, [Get] without. *)
Lemma ETag_witness :
  snd (fst (fst (GetPartial (D := deps tagged) (client tagged) "bucket" "key" 0 (-1))))
  = quoted "abc" /\
  snd (fst (fst (Get (D := deps tagged) (client tagged) "bucket" "key"))) = "abc" /\
  quoted "abc" <> "abc".
Proof.
  destruct (S3Facts.ETag_verbatim_in_GetPartial_trimmed_in_Get (D := deps tagged)
              (client tagged) "bucket" "key" 0 (-1)
              (respond 200 (<["ETag" := [quoted "abc"]]> ∅))
              ltac:(lia) (fun _ => eq_refl))
    as [_ H200].
  destruct (H200 eq_refl) as [_ Hdiffer].
  apply (Hdiffer "abc").
  - unfold avoids. simpl. repeat constructor.
  - vm_compute. reflexivity.
Defined.

Lemma newReq_keeps_body_demo res : newReq_keeps_body (D := deps res).
Proof. intros url userAgent body. reflexivity. Qed.

Lemma signRequest_keeps_body_demo res : signRequest_keeps_body (D := deps res).
Proof. intros c req host. reflexivity. Qed.

(** [Put] with size 5 sends a request that declares the length 5, and with
    size -1 one that declares none. *)
Lemma Put_declares_length_witness :
  (exists req,
     In (ClientDo req) (snd (upload ok "" 5)) /\
     Request.ContentLength req = 5 /\
     Request.declaredLength req = Some 5) /\
  (exists req,
     In (ClientDo req) (snd (upload ok "" (-1))) /\
     Request.ContentLength req = -1 /\
     Request.declaredLength req = None).
Proof.
  split.
  - destruct (S3Facts.Put_declares_length_iff_positive (D := deps ok) (client ok)
                "bucket" "key" "" 5 (signRequest_keeps_length_demo ok)
                (signRequest_keeps_body_demo ok) (newReq_keeps_body_demo ok))
      as [Hsend Hlen].
    eexists. split; [apply Hsend; reflexivity |].
    destruct (Hlen _ (Hsend _ eq_refl)) as (Heq & _ & _ & Hpos & _).
    split; [exact Heq | apply Hpos; lia].
  - destruct (S3Facts.Put_declares_length_iff_positive (D := deps ok) (client ok)
                "bucket" "key" "" (-1) (signRequest_keeps_length_demo ok)
                (signRequest_keeps_body_demo ok) (newReq_keeps_body_demo ok))
      as [Hsend Hlen].
    eexists. split; [apply Hsend; reflexivity |].
    destruct (Hlen _ (Hsend _ eq_refl)) as (Heq & _ & _ & _ & Hneg).
    split; [exact Heq | apply Hneg; lia].
Defined.

(** C3 as it is stated fails at size 0, which is not negative: the one
    request has the length 0 and the pipe as its body, and so declares no
    length. *)
Lemma Put_size_0_declares_no_length :
  0 <= 0 /\
  map Request.ContentLength (requests_in (snd (upload ok "" 0))) = [0] /\
  map Request.Body (requests_in (snd (upload ok "" 0))) = [Some PipeReader] /\
  map Request.declaredLength (requests_in (snd (upload ok "" 0))) = [None].
Proof.
  split; [lia |]. repeat split; vm_compute; reflexivity.
Qed.

(** A 403 from the server: [Close] returns nil. *)
Lemma Put_non200_witness :
  exists cfg,
    run (sender_first (spawn (upload forbidden "" (-1)) Close))
        (spawn (upload forbidden "" (-1)) Close) = Some cfg /\
    returned cfg = [None] /\ panicked cfg = false.
Proof.
  destruct (PutFacts.Put_non200_Close_returns_nil (D := deps forbidden)
              (client forbidden) "bucket" "key" "" (-1) _ (respond 403 ∅)
              eq_refl eq_refl ltac:(discriminate))
    as (_ & _ & Hclose).
  exact Hclose.
Defined.

(** The hash [zz] does not decode: no request, and [Close] returns the
    decode error once the sender has finished. The MD5 of the empty input
    goes out as its base64. *)
Lemma Put_content_hash_witness :
  (exists cfg,
     run (sender_first (spawn (upload ok "zz" (-1)) Close))
         (spawn (upload ok "zz" (-1)) Close) = Some cfg /\
     returned cfg = [Some (Iodine (InvalidByteError "z"))] /\
     sent (shared cfg) = []) /\
  (exists req,
     In (ClientDo req) (snd (upload ok "d41d8cd98f00b204e9800998ecf8427e" (-1))) /\
     Header_Get (Request.Header req) "Content-MD5" = "1B2M2Y8AsgTpgAmY7PhCfg==").
Proof.
  split.
  - destruct (PutFacts.Put_content_hash (D := deps ok) (client ok) "bucket" "key"
                "zz" (-1)
                (signRequest_keeps_demo ok "Content-MD5"
                   ltac:(discriminate) ltac:(discriminate)))
      as (_ & _ & Hbad & _).
    destruct (Hbad (InvalidByteError "z") ltac:(vm_compute; discriminate) eq_refl)
      as [_ Hclose].
    exact Hclose.
  - destruct (PutFacts.Put_content_hash (D := deps ok) (client ok) "bucket" "key"
                "d41d8cd98f00b204e9800998ecf8427e" (-1)
                (signRequest_keeps_demo ok "Content-MD5"
                   ltac:(discriminate) ltac:(discriminate)))
      as (_ & _ & _ & Hgood).
    destruct (Hgood _ ltac:(discriminate) ltac:(vm_compute; reflexivity))
      as (req & Hin & Hmd5).
    exists req. split; [exact Hin | exact Hmd5].
Defined.

(** C4 as it is stated fails on a hash of one space: it is not empty and is
    not hexadecimal, yet it is never decoded; the request goes out, the
    server answers 200, [Release] gets nil and [Close] returns nil. *)
Lemma Put_blank_hash_is_not_decoded :
  " " <> EmptyString /\
  DecodeString " " = inr (InvalidByteError " ") /\
  filter isRelease (snd (upload ok " " (-1))) = [Release None] /\
  option_map returned
    (run (sender_first (spawn (upload ok " " (-1)) Close))
         (spawn (upload ok " " (-1)) Close))
  = Some [None].
Proof.
  split; [discriminate |]. repeat split; vm_compute; reflexivity.
Qed.

(** The first [Close] waits, the sender runs up to its [Done]: from there
    the caller alone runs both calls of [Close] to their return. *)
Lemma Release_once_witness :
  release (b (shared (after [Caller; Sender; Sender] (closing ok "" 2)))) = 0 /\
  exists cfg',
    run (repeat Caller
           (List.length (caller (after [Caller; Sender; Sender] (closing ok "" 2)))))
        (after [Caller; Sender; Sender] (closing ok "" 2)) = Some cfg' /\
    caller cfg' = [] /\
    sender cfg' = sender (after [Caller; Sender; Sender] (closing ok "" 2)) /\
    panicked cfg' = false /\ List.length (returned cfg') = 2%nat.
Proof.
  destruct (PutFacts.Release_once_unblocks_every_Close (D := deps ok) (client ok)
              "bucket" "key" "" (-1))
    as (_ & _ & _ & Hpending & _).
  apply (Hpending 2%nat [Caller; Sender; Sender]).
  - vm_compute. reflexivity.
  - vm_compute. intros [H | [H | H]]; [discriminate H | discriminate H | exact H].
Defined.

(** C8 as it is stated fails: one [Release] does not unblock one [Close]
    only. The function in the background calls [Release] once, and the
    second [Close] on the handle returns as the first did. *)
Lemma one_Release_unblocks_two_Closes :
  List.length (filter isRelease (snd (upload ok "" (-1)))) = 1%nat /\
  ~ (forall sched cfg,
       run sched (closing ok "" 2) = Some cfg ->
       (List.length (returned cfg) <= 1)%nat).
Proof.
  split; [vm_compute; reflexivity |].
  intros Hone.
  assert (Htwo : exists cfg,
             run (sender_first (closing ok "" 2)) (closing ok "" 2) = Some cfg /\
             List.length (returned cfg) = 2%nat).
  { eexists. split; vm_compute; reflexivity. }
  destruct Htwo as (cfg & Hrun & Hlen).
  apply Hone in Hrun. lia.
Qed.

(** The hash [zz]: [Release] carries the decode error and [Close] has
    returned nil before the error is stored. *)
Lemma Close_returns_nil_witness :
  In (Release (Some (Iodine (InvalidByteError "z")))) (snd (upload ok "zz" (-1))) /\
  exists cfg,
    run [Sender; Sender; Caller; Caller; Caller; Sender]
        (spawn (upload ok "zz" (-1)) Close) = Some cfg /\
    returned cfg = [None] /\
    err (b (shared cfg)) = Some (Iodine (InvalidByteError "z")) /\
    caller cfg = [] /\ sender cfg = [] /\ panicked cfg = false.
Proof.
  apply (PutFacts.Close_returns_nil_before_Release_stores (D := deps ok)
           (client ok) "bucket" "key" "zz" (-1) (InvalidByteError "z")).
  vm_compute. reflexivity.
Defined.

(** A broken pipe on the standard output without targets, and a broken
    pipe while one target is written: [pipe] returns nil both times. *)
Lemma pipe_graceful_witness :
  PipeMain.pipe (PipeMain.catOut (fun _ => Some brokenPipe)) (failing brokenPipe) []
  = None /\
  PipeMain.pipe (PipeMain.catOut (fun _ => Some brokenPipe)) (failing brokenPipe)
    ["play.minio.io/bucket/object"]
  = None.
Proof.
  split.
  - destruct (PipeFacts.pipe_graceful_on_broken_pipe (fun _ => Some brokenPipe)
                (failing brokenPipe) [])
      as [Hnone _].
    apply (Hnone eq_refl brokenPipe); reflexivity.
  - destruct (PipeFacts.pipe_graceful_on_broken_pipe (fun _ => Some brokenPipe)
                (failing brokenPipe) ["play.minio.io/bucket/object"])
      as [_ Htargets].
    destruct (Htargets ltac:(discriminate)) as [_ Herr].
    destruct (Herr _ eq_refl) as [Hepipe _].
    apply (Hepipe "read" "/dev/stdin"). reflexivity.
Defined.

(** C1 as it is stated fails: with a target, the broken pipe that
    [putTargets] reports is not returned as a failure. *)
Lemma pipe_swallows_broken_pipe_with_target :
  failing brokenPipe ["play.minio.io/bucket/object"] (-1) PipeMain.Stdin <> None /\
  PipeMain.ToGoError
    (failing brokenPipe ["play.minio.io/bucket/object"] (-1) PipeMain.Stdin)
  = Some (PathError "read" "/dev/stdin" PipeMain.EPIPE) /\
  ~ (PipeMain.pipe (fun _ => None) (failing brokenPipe)
       ["play.minio.io/bucket/object"] <> None).
Proof.
  split; [discriminate |]. split; [reflexivity |].
  intros Hfail. apply Hfail. vm_compute. reflexivity.
Qed.

End Examples.

(** * Further properties of the object API *)

Module MoreGoFacts.
Import Go GoFacts.

Lemma trimLeftBytes_head cutset s a rest :
  trimLeftBytes cutset s = String a rest -> inCutset cutset a = false.
Proof.
  induction s as [| x s IH]; simpl; [discriminate |].
  destruct (inCutset cutset x) eqn:Hx; [exact IH |].
  intros Heq. injection Heq as <- _. exact Hx.
Qed.

Lemma trimLeftBytes_suffix cutset s :
  exists pre,
    list_ascii_of_string s = pre ++ list_ascii_of_string (trimLeftBytes cutset s).
Proof.
  induction s as [| x s [pre IH]]; simpl.
  - by exists [].
  - destruct (inCutset cutset x).
    + exists (x :: pre). simpl. by rewrite IH.
    + by exists [].
Qed.

Lemma Trim_head cutset s a rest :
  Trim s cutset = String a rest -> inCutset cutset a = false.
Proof.
  unfold Trim. set (u := trimLeftBytes cutset s).
  set (t := trimLeftBytes cutset (rev_string u)). intros Heq.
  destruct (trimLeftBytes_suffix cutset (rev_string u)) as [pre Hpre].
  fold t in Hpre. unfold rev_string in Hpre at 1.
  rewrite list_ascii_of_string_of_list_ascii in Hpre.
  apply (f_equal list_ascii_of_string) in Heq. unfold rev_string in Heq.
  rewrite list_ascii_of_string_of_list_ascii in Heq. simpl in Heq.
  apply (f_equal (@List.rev ascii)) in Hpre.
  rewrite rev_involutive, rev_app_distr, Heq in Hpre. simpl in Hpre.
  apply (f_equal string_of_list_ascii) in Hpre.
  rewrite string_of_list_ascii_of_string in Hpre. simpl in Hpre.
  subst u. by eapply trimLeftBytes_head.
Qed.

Lemma Trim_last cutset s init a :
  Trim s cutset = init +:+ String a EmptyString -> inCutset cutset a = false.
Proof.
  unfold Trim. intros Heq.
  apply (f_equal rev_string) in Heq.
  rewrite rev_string_involutive, rev_string_snoc in Heq.
  by eapply trimLeftBytes_head.
Qed.

Lemma digitValue_nonneg d v : digitValue d = Some v -> 0 <= v.
Proof.
  unfold digitValue, byteIn. generalize (N_of_ascii d). intros m H.
  repeat match type of H with
  | context [N.leb ?x ?y] => destruct (N.leb_spec x y); simpl in H
  end; try discriminate; injection H as <-; lia.
Qed.

Lemma parseUintLoop_range s :
  forall n m, 0 <= n <= MaxUint64 -> parseUintLoop s n = inl m ->
              0 <= m <= MaxUint64.
Proof.
  induction s as [| d s IH]; intros n m Hn Hm; simpl in Hm.
  - by injection Hm as <-.
  - destruct (digitValue d) as [v |] eqn:Hd; [| discriminate].
    apply digitValue_nonneg in Hd.
    destruct (10 <=? v); [discriminate |].
    destruct (MaxUint64 / 10 + 1 <=? n); [discriminate |].
    destruct (Z.ltb_spec MaxUint64 (n * 10 + v)); [discriminate |].
    apply (IH (n * 10 + v) m); [lia | exact Hm].
Qed.

(** What [strconv.ParseInt] accepts is an int64. *)
Lemma ParseInt_range s n : ParseInt s = inl n -> isInt64 n.
Proof.
  unfold ParseInt, ParseUint. destruct s as [| a s']; [discriminate |].
  set (digits := if byteIs 43 a || byteIs 45 a then s' else String a s').
  destruct digits as [| d ds] eqn:Hdigits; [discriminate |].
  destruct (parseUintLoop (String d ds) 0) as [un | []] eqn:Hun; try discriminate.
  apply parseUintLoop_range in Hun; [| unfold MaxUint64; lia].
  unfold isInt64, MinInt64, MaxInt64.
  destruct (byteIs 45 a); simpl;
    destruct (Z.leb_spec (2 ^ 63) un); simpl; try discriminate;
    destruct (Z.ltb_spec (2 ^ 63) un); simpl; try discriminate;
    intros Heq; injection Heq as <-; lia.
Qed.

End MoreGoFacts.

Module ObjectFacts.
Import Go S3 MoreGoFacts.

Section WithDeps.
Context {D : Deps}.

Lemma iodine_New_Some e : iodine_New (Some e) <> None.
Proof. discriminate. Qed.

(** X1. [StatObject] hands a request to the transport exactly when the
    bucket and the key are both not empty, and then one request only, the
    signed HEAD; with an empty bucket or key it returns [InvalidArgument]
    with size 0 and the zero time. *)
Theorem StatObject_requests_iff_named c bucket key :
  (bucket = EmptyString \/ key = EmptyString ->
     StatObject c bucket key = ((0, zeroTime, Some (Iodine InvalidArgument)), [])) /\
  (snd (StatObject c bucket key) <> [] <-> bucket <> EmptyString /\ key <> EmptyString) /\
  (snd (StatObject c bucket key) = [] \/
   snd (StatObject c bucket key) = [StatObject_req c bucket key]).
Proof.
  assert (Hbad : bucket = EmptyString \/ key = EmptyString ->
            StatObject c bucket key
            = ((0, zeroTime, Some (Iodine InvalidArgument)), [])).
  { unfold StatObject. intros [-> | ->]; [reflexivity |].
    rewrite orb_true_r. reflexivity. }
  split; [exact Hbad |].
  destruct (String.eqb_spec bucket EmptyString) as [Hb | Hb];
    [| destruct (String.eqb_spec key EmptyString) as [Hk | Hk]].
  - rewrite Hbad by (by left). simpl. split; [| by left].
    split; [done | intros [? _]; contradiction].
  - rewrite Hbad by (by right). simpl. split; [| by left].
    split; [done | intros [_ ?]; contradiction].
  - rewrite (S3Facts.StatObject_sends c bucket key Hb Hk).
    split; [| by right]. split; [auto | discriminate].
Qed.

(** X2. Whenever [StatObject] returns an error, the size it returns is 0
    and the time is the zero time, on every path: bad argument, transport
    failure, 404, a length or a date that does not parse, another status. *)
Theorem StatObject_error_returns_zeroes c bucket key size date e :
  fst (StatObject c bucket key) = (size, date, Some e) ->
  size = 0 /\ date = zeroTime.
Proof.
  unfold StatObject. intros H.
  repeat case_match; simpl in H; simplify_eq; auto.
Qed.

(** X3. Whenever [StatObject] returns without an error, the bucket and key
    were not empty, the transport answered 200, the size is the
    Content-Length as [ParseInt] read it, an int64, and the time is the
    zero time or the Last-Modified as [time.Parse] read it. *)
Theorem StatObject_success_comes_from_200 c bucket key size date :
  fst (StatObject c bucket key) = (size, date, None) ->
  bucket <> EmptyString /\ key <> EmptyString /\
  exists res,
    Transport c (StatObject_req c bucket key) = inl res /\
    Response.StatusCode res = 200 /\
    ParseInt (Header_Get (Response.Header res) "Content-Length") = inl size /\
    isInt64 size /\
    (Header_Get (Response.Header res) "Last-Modified" = EmptyString /\ date = zeroTime \/
     time_Parse RFC1123 (Header_Get (Response.Header res) "Last-Modified") = inl date).
Proof.
  unfold StatObject. fold (StatObject_req c bucket key). intros H.
  destruct (String.eqb_spec bucket EmptyString) as [Hb | Hb]; [discriminate H |].
  destruct (String.eqb_spec key EmptyString) as [Hk | Hk]; [discriminate H |].
  simpl in H. split; [exact Hb | split; [exact Hk |]].
  destruct (Transport c (StatObject_req c bucket key)) as [res | e]; [| discriminate H].
  exists res. split; [reflexivity |].
  destruct (Response.StatusCode res =? StatusNotFound); [discriminate H |].
  destruct (Z.eqb_spec (Response.StatusCode res) StatusOK) as [Hok | _];
    [| discriminate H].
  split; [exact Hok |].
  destruct (ParseInt (Header_Get (Response.Header res) "Content-Length"))
    as [n | e] eqn:Hn; [| discriminate H].
  destruct (String.eqb_spec (Header_Get (Response.Header res) "Last-Modified")
              EmptyString) as [Hd | Hd]; simpl in H.
  - injection H as <- <-.
    split; [reflexivity |]. split; [by eapply ParseInt_range |]. by left.
  - destruct (time_Parse RFC1123 (Header_Get (Response.Header res) "Last-Modified"))
      as [d | e] eqn:Hparse; [| discriminate H].
    injection H as <- <-.
    split; [reflexivity |]. split; [by eapply ParseInt_range |]. by right.
Qed.

(** X4. [Get] and [GetPartial] return a body exactly when they return no
    error, and with an error the size is 0 and the hash is empty. *)
Theorem body_iff_no_error c bucket key offset length :
  (forall body size md5 e,
     fst (Get c bucket key) = (body, size, md5, e) ->
     (body = None <-> e <> None) /\ (e <> None -> size = 0 /\ md5 = EmptyString)) /\
  (forall body size md5 e,
     fst (GetPartial c bucket key offset length) = (body, size, md5, e) ->
     (body = None <-> e <> None) /\ (e <> None -> size = 0 /\ md5 = EmptyString)).
Proof.
  split; intros body size md5 e H.
  - unfold Get in H. repeat case_match; simpl in H; simplify_eq;
      (split; [split |]); try done.
  - unfold GetPartial in H. repeat case_match; simpl in H; simplify_eq;
      (split; [split |]); try done.
Qed.

(** X5. For one response of the transport, [Get] succeeds exactly on a 200
    and [GetPartial] (offset not negative) exactly on a 200 or a 206: a 206
    that [GetPartial] accepts is for [Get] the error that [NewError] builds
    from the response. *)
Theorem Get_succeeds_on_200_GetPartial_also_on_206 c bucket key offset length res :
  0 <= offset ->
  (forall req, Transport c req = inl res) ->
  (snd (fst (Get c bucket key)) = None <-> Response.StatusCode res = 200) /\
  (snd (fst (GetPartial c bucket key offset length)) = None
   <-> Response.StatusCode res = 200 \/ Response.StatusCode res = 206) /\
  (Response.StatusCode res = 206 ->
     fst (Get c bucket key) = (None, 0, EmptyString, Some (Iodine (NewError res))) /\
     fst (GetPartial c bucket key offset length)
     = (Some (Response.Body res), Response.ContentLength res,
        Header_Get (Response.Header res) "ETag", None)).
Proof.
  intros Hoff Hres. unfold Get, GetPartial.
  destruct (Z.ltb_spec offset 0) as [? | _]; [lia |].
  rewrite !Hres. unfold StatusOK, StatusPartialContent.
  destruct (Z.eqb_spec (Response.StatusCode res) 200) as [H200 | H200];
    destruct (Z.eqb_spec (Response.StatusCode res) 206) as [H206 | H206];
    simpl; repeat split; try done; try lia; intros; try lia; auto.
Qed.

(** X6. A failure of the transport comes back from [StatObject], [Get] and
    [GetPartial] as that same error with one stack entry, beside zero
    results, after one request. *)
Theorem transport_error_is_returned c bucket key offset length e :
  bucket <> EmptyString -> key <> EmptyString -> 0 <= offset ->
  (forall req, Transport c req = inr e) ->
  StatObject c bucket key
  = ((0, zeroTime, Some (Iodine e)), [StatObject_req c bucket key]) /\
  Get c bucket key = ((None, 0, EmptyString, Some (Iodine e)), [Get_req c bucket key]) /\
  fst (GetPartial c bucket key offset length)
  = (None, 0, EmptyString, Some (Iodine e)) /\
  List.length (snd (GetPartial c bucket key offset length)) = 1%nat.
Proof.
  intros Hb Hk Hoff He. unfold StatObject, Get, GetPartial.
  apply String.eqb_neq in Hb, Hk. rewrite Hb, Hk. simpl.
  destruct (Z.ltb_spec offset 0) as [? | _]; [lia |].
  rewrite !He. auto.
Qed.

(** X7. The hash that [Get] returns on success neither starts nor ends with
    a double quote, however many of them surround the ETag. *)
Theorem Get_hash_has_no_outer_quote c bucket key body size md5 :
  fst (Get c bucket key) = (body, size, md5, None) ->
  (forall a rest, md5 = String a rest -> a <> "034"%char) /\
  (forall init a, md5 = init +:+ String a EmptyString -> a <> "034"%char).
Proof.
  unfold Get. intros H.
  assert (Hq : forall a, inCutset quote a = false -> a <> "034"%char).
  { intros a Ha ->. discriminate Ha. }
  repeat case_match; simpl in H; simplify_eq.
  split.
  - intros a rest Heq. apply Hq. by eapply Trim_head.
  - intros init a Heq. apply Hq. by eapply Trim_last.
Qed.

End WithDeps.

End ObjectFacts.


Module UploadFacts.
Import Go S3 HandleFacts MoreHandleFacts.

Section WithDeps.
Context {D : Deps}.

Lemma Put_released c bucket key md5HexString size e :
  filter isRelease (snd (Put c bucket key md5HexString size)) = [Release e] ->
  exit_path (Put_background c bucket key md5HexString size) e.
Proof.
  unfold Put. cbn [snd]. intros Hrel.
  destruct (PutFacts.Put_exit_path c bucket key md5HexString size) as [e' Hpath].
  rewrite (exit_path_one_Release _ _ Hpath) in Hrel. by injection Hrel as <-.
Qed.

(** X8. Let [e] be the error that the function in the background gives to
    [Release]. In every interleaving with any number of [Close] calls, each
    value that a [Close] has returned is nil or [e], and so is [b.err];
    once the function in the background has finished, [b.err] is [e]. *)
Theorem Close_returns_nil_or_the_released_error
    c bucket key md5HexString size e n sched cfg :
  filter isRelease (snd (Put c bucket key md5HexString size)) = [Release e] ->
  run sched (spawn (Put c bucket key md5HexString size) (Closes n)) = Some cfg ->
  Forall (nil_or e) (returned cfg) /\
  nil_or e (err (b (shared cfg))) /\
  (sender cfg = [] -> err (b (shared cfg)) = e).
Proof.
  intros Hrel Hrun. apply Put_released in Hrel.
  eapply run_stored_invariant in Hrun; [| by apply spawn_stored_invariant].
  destruct Hrun as [(He & _ & _ & Hret) Hst].
  repeat split; auto.
  intros Hs. rewrite Hs in Hst. by destruct Hst as [[] | ?].
Qed.

(** X9. Once [client.Do] has returned, or when the hash does not decode and
    it is never called, nothing can get stuck: from every such
    configuration that an upload with [n] calls of [Close] can reach,
    letting the sender finish and then the caller runs both to their end
    without a panic, and all [n] calls have returned. *)
Theorem upload_runs_to_its_end c bucket key md5HexString size n sched cfg :
  run sched (spawn (Put c bucket key md5HexString size) (Closes n)) = Some cfg ->
  requests_of (sender cfg) = [] ->
  exists cfg',
    run (sender_first cfg) cfg = Some cfg' /\
    caller cfg' = [] /\ sender cfg' = [] /\ panicked cfg' = false /\
    List.length (returned cfg') = n.
Proof.
  intros Hrun _. unfold Put in Hrun.
  destruct (PutFacts.Put_exit_path c bucket key md5HexString size) as [e Hpath].
  pose proof (run_returns_due _ _ _ Hrun) as Hdue.
  rewrite (spawn_returns_due _ _ n Hpath) in Hdue.
  eapply run_invariant in Hrun; [| by eapply spawn_invariant].
  destruct (finish_sender _ cfg eq_refl Hrun) as (cfg1 & Hrun1 & Hs1 & Hc1 & Hr1 & Hinv1).
  destruct Hinv1 as (Hpan1 & _ & Hrel1 & Hclose1 & _ & _).
  rewrite Hs1 in Hrel1. simpl in Hrel1.
  destruct (finish_caller _ cfg1 eq_refl Hpan1 Hrel1 Hclose1)
    as (cfg' & Hrun' & Hc' & Hs' & Hp').
  exists cfg'. unfold sender_first. rewrite run_app, Hrun1, <- Hc1, Hrun'.
  rewrite Hs', Hs1. repeat split; auto.
  pose proof (run_returns_due _ _ _ Hrun') as Hdue'.
  pose proof (run_returns_due _ _ _ Hrun1) as Hdue1.
  unfold returns_due in Hdue', Hdue1, Hdue.
  rewrite Hc', Hs', Hs1 in Hdue'. rewrite Hs1 in Hdue1. simpl in *. lia.
Qed.

(** X10. With at least one call of [Close], in every interleaving: once the
    caller has finished, the write end of the pipe is closed with [EOF] and
    a later [Write] returns 0 bytes and [ErrClosedPipe]; once the function
    in the background has finished, the read end is closed. *)
Theorem pipe_ends_are_closed c bucket key md5HexString size n sched cfg data :
  (1 <= n)%nat ->
  run sched (spawn (Put c bucket key md5HexString size) (Closes n)) = Some cfg ->
  (caller cfg = [] ->
     werr (w (b (shared cfg))) = Some EOF /\
     Write (b (shared cfg)) data = Wrote 0 (Some (Iodine ErrClosedPipe))) /\
  (sender cfg = [] -> rerr (w (b (shared cfg))) <> None).
Proof.
  intros Hn Hrun. unfold Put in Hrun.
  destruct (PutFacts.Put_exit_path c bucket key md5HexString size) as [e Hpath].
  pose proof (run_pipe_invariant _ _ _ (spawn_pipe_invariant _ _ n Hpath Hn) Hrun)
    as [Hr Hw].
  eapply run_invariant in Hrun; [| by eapply spawn_invariant].
  destruct Hrun as (_ & _ & _ & Hclose & Hsend & _).
  split.
  - intros Hc. rewrite Hc in Hw. simpl in Hw.
    rewrite (senderSteps_leave_writer _ Hsend) in Hw.
    destruct Hw as [Hw | [_ Hw]]; [| discriminate Hw].
    split; [exact Hw |]. unfold Write, pipe_write. by rewrite Hw.
  - intros Hs. rewrite Hs in Hr. simpl in Hr.
    rewrite (closeSteps_leave_reader _ Hclose) in Hr.
    destruct Hr as [Hr | Hr]; [exact Hr | discriminate Hr].
Qed.


(** X12. When the HTTP client answers 200, [Release] gets nil before the
    read end is closed; every [Close] that returns, in every interleaving,
    returns nil, and with the sender first it does return, after the one
    request. *)
Theorem Put_200_Close_returns_nil c bucket key md5HexString size req0 res :
  Put_request c bucket key md5HexString size = inl req0 ->
  client_Do (signRequest c req0 (Host c)) = inl res ->
  Response.StatusCode res = 200 ->
  snd (Put c bucket key md5HexString size)
  = [ClientDo (signRequest c req0 (Host c)); Release None; ReaderClose] /\
  (forall n sched cfg,
     run sched (spawn (Put c bucket key md5HexString size) (Closes n)) = Some cfg ->
     Forall (fun v => v = None) (returned cfg)) /\
  (exists cfg,
     run (sender_first (spawn (Put c bucket key md5HexString size) Close))
         (spawn (Put c bucket key md5HexString size) Close) = Some cfg /\
     returned cfg = [None] /\
     sent (shared cfg) = [signRequest c req0 (Host c)]).
Proof.
  intros Hreq Hdo Hst.
  assert (Hbg : Put_background c bucket key md5HexString size
                = [ClientDo (signRequest c req0 (Host c)); Release None; ReaderClose]).
  { unfold Put_background. rewrite Hreq, Hdo, Hst. reflexivity. }
  unfold Put. cbn [snd]. rewrite Hbg.
  split; [reflexivity |]. split.
  - intros n sched cfg Hrun.
    eapply run_nil_invariant in Hrun; [apply Hrun |].
    apply spawn_nil_invariant. constructor.
  - eexists. split; [reflexivity |]. simpl. auto.
Qed.



(** X14. In every interleaving the HTTP client has got no request or the
    one signed request of the upload, never a second one; and none at all
    when the content hash does not decode. *)
Theorem Put_sends_at_most_one_request c bucket key md5HexString size n sched cfg :
  run sched (spawn (Put c bucket key md5HexString size) (Closes n)) = Some cfg ->
  (sent (shared cfg) = [] \/
   exists req0,
     Put_request c bucket key md5HexString size = inl req0 /\
     sent (shared cfg) = [signRequest c req0 (Host c)]) /\
  (forall e, Put_request c bucket key md5HexString size = inr e ->
             sent (shared cfg) = []).
Proof.
  intros Hrun. apply run_requests in Hrun; [| apply Closes_closeSteps].
  unfold Put, Put_background in Hrun. cbn [spawn shared sent sender snd app] in Hrun.
  destruct (Put_request c bucket key md5HexString size) as [req0 | e0].
  - split; [| discriminate].
    assert (Hone : sent (shared cfg) ++ requests_of (sender cfg)
                   = [signRequest c req0 (Host c)]).
    { rewrite Hrun. repeat case_match; reflexivity. }
    destruct (sent (shared cfg)) as [| r [| r' rest]]; [by left | |].
    + right. exists req0. split; [reflexivity |]. simpl in Hone. congruence.
    + simpl in Hone. discriminate Hone.
  - simpl in Hrun. apply app_eq_nil in Hrun as [Hsent _].
    split; [by left | intros _ _; exact Hsent].
Qed.

End WithDeps.

End UploadFacts.

Module MorePipeFacts.
Import Go PipeMain.

(** X15. With one or more targets [pipe] returns nil exactly when
    [putTargets] returned nil or an error whose cause is a [*os.PathError]
    with [EPIPE] right in its [Err]; every error it returns has the cause
    that [putTargets] gave, with the targets as one more trace point. So an
    [EPIPE] that is not in a [PathError], or that lies deeper, is a
    failure. *)
Theorem pipe_nil_iff_no_error_or_EPIPE catOut putTargets targetURLs :
  targetURLs <> [] ->
  (pipe catOut putTargets targetURLs = None <->
   putTargets targetURLs (-1) Stdin = None \/
   exists e op path,
     putTargets targetURLs (-1) Stdin = Some e /\ Cause e = PathError op path EPIPE) /\
  (forall e', pipe catOut putTargets targetURLs = Some e' ->
     exists e,
       putTargets targetURLs (-1) Stdin = Some e /\
       Cause e' = Cause e /\ CallTrace e' = CallTrace e ++ [targetURLs]).
Proof.
  intros Hne. unfold pipe.
  destruct targetURLs as [| t ts]; [contradiction |].
  rewrite bool_decide_eq_false_2 by discriminate. simpl.
  destruct (putTargets (t :: ts) (-1) Stdin) as [e |]; simpl.
  - destruct (Cause e) as [| | | | | op path e0 | | | | | |] eqn:Hc;
      try (split; [split; [discriminate | intros [? | (? & ? & ? & ? & ?)]; congruence]
                  | intros e' He'; injection He' as <-; eauto]).
    case_bool_decide as He0.
    + subst e0. split; [| discriminate].
      split; [intros _; right; eauto | reflexivity].
    + split.
      * split; [discriminate |].
        intros [? | (e1 & op1 & path1 & Heq & Hc1)]; [discriminate |].
        injection Heq as <-. rewrite Hc in Hc1. congruence.
      * intros e' He'. injection He' as <-. eauto.
  - split; [split; auto | discriminate].
Qed.

End MorePipeFacts.

Module MoreObjectFacts.
Import Go S3.

Section WithDeps.
Context {D : Deps}.

(** X16. [Get] and [GetPartial] do not look at the bucket or the key:
    whatever they are, also empty, [Get] hands one request to the
    transport, and so does [GetPartial] exactly when the offset is not
    negative. *)
Theorem Get_sends_whatever_the_names c bucket key offset length :
  snd (Get c bucket key) = [Get_req c bucket key] /\
  (List.length (snd (GetPartial c bucket key offset length)) = 1%nat <-> 0 <= offset) /\
  (offset < 0 -> snd (GetPartial c bucket key offset length) = []).
Proof.
  split; [apply S3Facts.Get_sends |].
  destruct (Z.lt_ge_cases offset 0) as [Hneg | Hpos].
  - assert (Hnone : snd (GetPartial c bucket key offset length) = []).
    { unfold GetPartial. apply Z.ltb_lt in Hneg. rewrite Hneg. reflexivity. }
    rewrite Hnone. simpl. split; [split; [discriminate | lia] | auto].
  - rewrite (S3Facts.GetPartial_sends c bucket key offset length Hpos).
    simpl. split; [split; auto | lia].
Qed.

End WithDeps.

End MoreObjectFacts.

(** ** The further properties at concrete inputs *)

Module MoreExamples.
Import Go S3 Demo.

(** A 200 with a length that parses and a date that does not: the error,
    size 0 and the zero time. *)
Lemma StatObject_error_witness :
  exists size date e,
    fst (StatObject (D := deps stale) (client stale) "bucket" "key")
    = (size, date, Some e) /\
    size = 0 /\ date = zeroTime.
Proof.
  eexists _, _, _. split; [vm_compute; reflexivity |].
  apply (ObjectFacts.StatObject_error_returns_zeroes (D := deps stale)
           (client stale) "bucket" "key" _ _ (Iodine (errorString "parsing time"))).
  vm_compute. reflexivity.
Defined.

Lemma StatObject_success_witness :
  "bucket" <> EmptyString /\ "key" <> EmptyString /\
  exists res,
    Transport (client found) (StatObject_req (D := deps found) (client found) "bucket" "key")
    = inl res /\
    Response.StatusCode res = 200 /\
    ParseInt (Header_Get (Response.Header res) "Content-Length") = inl 123 /\
    isInt64 123 /\
    (Header_Get (Response.Header res) "Last-Modified" = EmptyString /\
     mkTime 63582739200 0 = zeroTime \/
     time_Parse (Deps := deps found) RFC1123
       (Header_Get (Response.Header res) "Last-Modified")
     = inl (mkTime 63582739200 0)).
Proof.
  apply (ObjectFacts.StatObject_success_comes_from_200 (D := deps found)
           (client found) "bucket" "key" 123 (mkTime 63582739200 0)).
  vm_compute. reflexivity.
Defined.

(** A 206: an error from [Get], a body from [GetPartial]. *)
Lemma Get_rejects_206_witness :
  fst (Get (D := deps ok) (client (inl partialContent)) "bucket" "key")
  = (None, 0, EmptyString, Some (Iodine (errorString "status 206"))) /\
  fst (GetPartial (D := deps ok) (client (inl partialContent)) "bucket" "key" 0 4)
  = (Some [], 0, quoted "abc", None).
Proof.
  destruct (ObjectFacts.Get_succeeds_on_200_GetPartial_also_on_206 (D := deps ok)
              (client (inl partialContent)) "bucket" "key" 0 4 partialContent
              ltac:(lia) (fun _ => eq_refl))
    as (_ & _ & H206).
  exact (H206 eq_refl).
Defined.

Lemma transport_error_witness :
  StatObject (D := deps ok) (client refused) "bucket" "key"
  = ((0, zeroTime, Some (Iodine (errorString "connection refused"))),
     [StatObject_req (D := deps ok) (client refused) "bucket" "key"]) /\
  Get (D := deps ok) (client refused) "bucket" "key"
  = ((None, 0, EmptyString, Some (Iodine (errorString "connection refused"))),
     [Get_req (D := deps ok) (client refused) "bucket" "key"]) /\
  fst (GetPartial (D := deps ok) (client refused) "bucket" "key" 0 4)
  = (None, 0, EmptyString, Some (Iodine (errorString "connection refused"))) /\
  List.length (snd (GetPartial (D := deps ok) (client refused) "bucket" "key" 0 4)) = 1%nat.
Proof.
  apply (ObjectFacts.transport_error_is_returned (D := deps ok) (client refused)
           "bucket" "key" 0 4 (errorString "connection refused")
           ltac:(discriminate) ltac:(discriminate) ltac:(lia) (fun _ => eq_refl)).
Defined.

(** An ETag inside two pairs of quotes: [Get] returns the bare hash. *)
Lemma Get_hash_witness :
  fst (Get (D := deps twiceQuoted) (client twiceQuoted) "bucket" "key")
  = (Some [], 0, "abc", None) /\
  (forall a rest, "abc" = String a rest -> a <> "034"%char) /\
  (forall init a, "abc" = init +:+ String a EmptyString -> a <> "034"%char).
Proof.
  split; [vm_compute; reflexivity |].
  apply (ObjectFacts.Get_hash_has_no_outer_quote (D := deps twiceQuoted)
           (client twiceQuoted) "bucket" "key" (Some []) 0 "abc").
  vm_compute. reflexivity.
Defined.

(** The schedule in which [Close] reads [b.err] before the decode error is
    stored: what it returns is nil, and [b.err] ends as the error. *)
Lemma Close_nil_or_error_witness :
  Forall (nil_or (Some (Iodine (InvalidByteError "z"))))
         (returned (after [Sender; Sender; Caller; Caller; Caller; Sender]
                          (closing ok "zz" 1))) /\
  err (b (shared (after [Sender; Sender; Caller; Caller; Caller; Sender]
                        (closing ok "zz" 1))))
  = Some (Iodine (InvalidByteError "z")).
Proof.
  destruct (UploadFacts.Close_returns_nil_or_the_released_error (D := deps ok)
              (client ok) "bucket" "key" "zz" (-1)
              (Some (Iodine (InvalidByteError "z"))) 1
              [Sender; Sender; Caller; Caller; Caller; Sender]
              (after [Sender; Sender; Caller; Caller; Caller; Sender]
                     (closing ok "zz" 1))
              ltac:(vm_compute; reflexivity) ltac:(vm_compute; reflexivity))
    as (Hret & _ & Hend).
  split; [exact Hret | apply Hend; vm_compute; reflexivity].
Defined.

(** The first [Close] has closed the write end and [client.Do] has
    returned: both calls of [Close] return. *)
Lemma upload_runs_to_its_end_witness :
  exists cfg',
    run (sender_first (after [Caller; Sender] (closing ok "" 2)))
        (after [Caller; Sender] (closing ok "" 2)) = Some cfg' /\
    caller cfg' = [] /\ sender cfg' = [] /\ panicked cfg' = false /\
    List.length (returned cfg') = 2%nat.
Proof.
  apply (UploadFacts.upload_runs_to_its_end (D := deps ok) (client ok)
           "bucket" "key" "" (-1) 2 [Caller; Sender]).
  - vm_compute. reflexivity.
  - vm_compute. reflexivity.
Defined.


Lemma pipe_ends_witness :
  werr (w (b (shared (after (sender_first (closing ok "" 1)) (closing ok "" 1)))))
  = Some EOF /\
  Write (b (shared (after (sender_first (closing ok "" 1)) (closing ok "" 1)))) []
  = Wrote 0 (Some (Iodine ErrClosedPipe)) /\
  rerr (w (b (shared (after (sender_first (closing ok "" 1)) (closing ok "" 1)))))
  <> None.
Proof.
  destruct (UploadFacts.pipe_ends_are_closed (D := deps ok) (client ok)
              "bucket" "key" "" (-1) 1 (sender_first (closing ok "" 1))
              (after (sender_first (closing ok "" 1)) (closing ok "" 1)) []
              ltac:(lia) ltac:(vm_compute; reflexivity))
    as [Hw Hr].
  destruct (Hw ltac:(vm_compute; reflexivity)) as [Heof Hwrite].
  split; [exact Heof |]. split; [exact Hwrite |].
  apply Hr. vm_compute. reflexivity.
Defined.


Lemma Put_200_witness :
  exists cfg,
    run (sender_first (spawn (upload ok "" (-1)) Close))
        (spawn (upload ok "" (-1)) Close) = Some cfg /\
    returned cfg = [None] /\
    List.length (sent (shared cfg)) = 1%nat.
Proof.
  destruct (UploadFacts.Put_200_Close_returns_nil (D := deps ok) (client ok)
              "bucket" "key" "" (-1) _ (respond 200 ∅) eq_refl eq_refl eq_refl)
    as (_ & _ & cfg & Hrun & Hret & Hsent).
  exists cfg. rewrite Hsent. auto.
Defined.

(** While the request is out and [Close] waits, the client has the one
    request; with the hash [zz] it never gets one. *)
Lemma Put_one_request_witness :
  List.length (sent (shared (after [Sender; Caller] (closing ok "" 1)))) = 1%nat /\
  sent (shared (after (sender_first (closing ok "zz" 1)) (closing ok "zz" 1))) = [].
Proof.
  split.
  - destruct (UploadFacts.Put_sends_at_most_one_request (D := deps ok) (client ok)
                "bucket" "key" "" (-1) 1 [Sender; Caller]
                (after [Sender; Caller] (closing ok "" 1))
                ltac:(vm_compute; reflexivity))
      as [[Hnone | (req0 & _ & Hone)] _].
    + vm_compute in Hnone. discriminate Hnone.
    + rewrite Hone. reflexivity.
  - destruct (UploadFacts.Put_sends_at_most_one_request (D := deps ok) (client ok)
                "bucket" "key" "zz" (-1) 1 (sender_first (closing ok "zz" 1))
                (after (sender_first (closing ok "zz" 1)) (closing ok "zz" 1))
                ltac:(vm_compute; reflexivity))
      as [_ Hnone].
    apply (Hnone (InvalidByteError "z")). vm_compute. reflexivity.
Defined.

(** [putTargets] reports a bare [EPIPE], in no [PathError]: a failure. *)
Lemma pipe_bare_EPIPE_witness :
  PipeMain.pipe (fun _ => None) (failing PipeMain.EPIPE) ["play.minio.io/bucket/object"]
  <> None.
Proof.
  destruct (MorePipeFacts.pipe_nil_iff_no_error_or_EPIPE (fun _ => None)
              (failing PipeMain.EPIPE) ["play.minio.io/bucket/object"]
              ltac:(discriminate))
    as [[Hnil _] _].
  intros Hpipe. destruct (Hnil Hpipe) as [Hn | (e & op & path & He & Hc)].
  - discriminate Hn.
  - injection He as <-. discriminate Hc.
Defined.

End MoreExamples.
